(** * polyhts: the screening session (src/polyhts/session.py)

    A shallow embedding of [Session]: construction, composition enumeration,
    the deduplicating dispatch of [screening_protocol], and the final sort of
    the screening output.

    Conventions.
    - Python [str] is [string]; a character is a code point below 256.
    - Files are their text contents.  The work-log is the file ['temp'] of
      the launch directory.
    - Calls to helpers of [utilities] ([cd], [property_log], [error_log],
      [remove_junk]) and to the five pipeline stages are recorded as events.
    - Exceptions are instances of [Exception]; interrupts are left out.
    - [random.randint] is a list of the values it returns, in order. *)

From Stdlib Require Import List Bool Arith ZArith Lia.
From Stdlib Require Import Ascii String.
From Stdlib Require Import Permutation Sorted.
Import ListNotations.

Local Open Scope string_scope.
Local Open Scope list_scope.

(* ================================================================== *)
(** ** Python text primitives *)

Module PyStr.

(** [str.isspace] on one character: TAB..CR, FS..US, space, NEL, NBSP. *)
Definition is_space (c : ascii) : bool :=
  let n := nat_of_ascii c in
  ((9 <=? n)%nat && (n <=? 13)%nat) || ((28 <=? n)%nat && (n <=? 32)%nat)
  || (n =? 133)%nat || (n =? 160)%nat.

Definition LF : ascii := ascii_of_nat 10.
Definition CR : ascii := ascii_of_nat 13.
Definition TAB : ascii := ascii_of_nat 9.
Definition SP : ascii := ascii_of_nat 32.

Definition is_empty (s : string) : bool :=
  match s with EmptyString => true | String _ _ => false end.

Definition snoc (s : string) (c : ascii) : string := s ++ String c EmptyString.

(** [s.split()]: maximal runs of non-space characters; [cur] is the run
    being read. *)
Fixpoint split_go (cur : string) (s : string) : list string :=
  match s with
  | EmptyString => if is_empty cur then [] else [cur]
  | String c s' =>
      if is_space c
      then (if is_empty cur then split_go EmptyString s'
            else cur :: split_go EmptyString s')
      else split_go (snoc cur c) s'
  end.

Definition split (s : string) : list string := split_go EmptyString s.

(** [sep.join(parts)] *)
Fixpoint join (sep : string) (parts : list string) : string :=
  match parts with
  | [] => EmptyString
  | [p] => p
  | p :: rest => p ++ sep ++ join sep rest
  end.

(** Text-mode reading translates ["\r\n"] and a lone ["\r"] to ["\n"]. *)
Fixpoint universal_newlines (s : string) : string :=
  match s with
  | EmptyString => EmptyString
  | String c s' =>
      if Ascii.eqb c CR then
        match s' with
        | String c' s'' =>
            if Ascii.eqb c' LF then String LF (universal_newlines s'')
            else String LF (universal_newlines s')
        | EmptyString => String LF EmptyString
        end
      else String c (universal_newlines s')
  end.

(** Iterating a text file: the lines, each with its terminator; a last
    line without terminator is kept as it is. *)
Fixpoint lines_go (cur : string) (s : string) : list string :=
  match s with
  | EmptyString => if is_empty cur then [] else [cur]
  | String c s' =>
      if Ascii.eqb c LF then snoc cur c :: lines_go EmptyString s'
      else lines_go (snoc cur c) s'
  end.

Definition readlines (content : string) : list string :=
  lines_go EmptyString (universal_newlines content).

(** A token: what [split] can return, a non-empty string without space. *)
Fixpoint no_space (s : string) : bool :=
  match s with
  | EmptyString => true
  | String c s' => negb (is_space c) && no_space s'
  end.

Definition is_token (s : string) : bool := negb (is_empty s) && no_space s.

(** A character that is neither line feed nor carriage return. *)
Definition inline_char (c : ascii) : bool :=
  negb (Ascii.eqb c LF) && negb (Ascii.eqb c CR).

Fixpoint inline (s : string) : bool :=
  match s with
  | EmptyString => true
  | String c s' => inline_char c && inline s'
  end.

Fixpoint no_cr (s : string) : bool :=
  match s with
  | EmptyString => true
  | String c s' => negb (Ascii.eqb c CR) && no_cr s'
  end.

(** The text of a file whose lines are [bodies], each ended by a line feed. *)
Fixpoint unlines (bodies : list string) : string :=
  match bodies with
  | [] => ""
  | b :: rest => (b ++ String LF (unlines rest))%string
  end.

End PyStr.

(* ================================================================== *)
(** ** Data model *)

(** A composition: the tuple of monomer identifiers of one repeat unit. *)
Definition composition := list string.

Definition composition_eq_dec : forall a b : composition, {a = b} + {a <> b} :=
  list_eq_dec string_dec.

(** [c in screened] for a tuple and a list of tuples. *)
Definition tuple_in (c : composition) (screened : list composition) : bool :=
  if in_dec composition_eq_dec c screened then true else false.

(** A Python [dict] with [str] keys and values: the items in insertion
    order.  Assigning to a key that is present keeps its position. *)
Definition pydict := list (string * string).

Fixpoint dict_set (k v : string) (d : pydict) : pydict :=
  match d with
  | [] => [(k, v)]
  | (k', v') :: d' =>
      if String.eqb k k' then (k', v) :: d' else (k', v') :: dict_set k v d'
  end.

Definition dict_keys (d : pydict) : list string := map fst d.

(** The exceptions the session raises or meets.  All of them are instances
    of [Exception]. *)
Inductive exn : Type :=
| ValueError (msg : string)
| IndexError (msg : string)
| OSError (errno : Z)
| PyException (msg : string) (items : list string)
| StageFailure (descr : string).

Inductive result (A : Type) : Type :=
| Ok (a : A)
| Raise (e : exn).
Arguments Ok {A} a.
Arguments Raise {A} e.

Definition EEXIST : Z := 17.

(** What [generate_polymer] returns twice: an [stk.Polymer]. *)
Record polymer : Type := mkPolymer {
  polymer_name : string;
  polymer_mol : string
}.

Inductive stage : Type :=
| GeneratePolymer
| ConformerSearch
| XtbOpt
| XtbCalcPotentials
| StdaCalcExcitation.

(** Position of a stage in the pipeline, 1 to 5. *)
Definition stage_no (st : stage) : nat :=
  match st with
  | GeneratePolymer => 1
  | ConformerSearch => 2
  | XtbOpt => 3
  | XtbCalcPotentials => 4
  | StdaCalcExcitation => 5
  end.

Record Session : Type := mkSession {
  session_name : string;
  length_repeat : Z;
  n_repeat : Z;
  n_confs : Z;
  solvent_info : list string
}.

(** Observable effects other than writes to the work-log, in the order
    they happen. *)
Inductive event : Type :=
| EvMakedirs (path : string)
| EvEnter (path : string)
| EvLeave (path : string)
| EvStage (st : stage) (wd : string)
| EvPropertyLog (wd : string) (repeat : polymer)
    (vip vea gap f : string) (E_solv : option string)
| EvErrorLog (wd : string) (permutation : composition) (monomers_dict : pydict)
    (e : exn)
| EvRemoveJunk (wd : string)
| EvWriteFile (path content : string).

Record world : Type := mkWorld {
  temp : string;
  events : list event
}.

(** The session's surroundings: the constants of [utilities], the file
    system's answer to [os.makedirs], and the five pipeline stages, which
    wrap rdkit, stk, babel, xtb and stda. *)
Record env : Type := mkEnv {
  valid_solvents : list string;
  output_header : string;
  os_makedirs : string -> option Z;
  generate_polymer :
    Session -> composition -> pydict -> string -> result (polymer * polymer);
  conformer_search : Session -> polymer -> result (Z * string);
  xtb_opt : Session -> polymer -> result (string * option string);
  xtb_calc_potentials : Session -> polymer -> result (string * string);
  stda_calc_excitation : Session -> polymer -> result (string * string)
}.

(* ================================================================== *)
(** ** The effect monad: state and exceptions *)

Definition M (A : Type) : Type := world -> result A * world.

Definition ret {A : Type} (a : A) : M A := fun w => (Ok a, w).

Definition raise {A : Type} (e : exn) : M A := fun w => (Raise e, w).

Definition bind {A B : Type} (c : M A) (k : A -> M B) : M B :=
  fun w =>
    match c w with
    | (Ok a, w') => k a w'
    | (Raise e, w') => (Raise e, w')
    end.

Declare Scope m_scope.
Delimit Scope m_scope with M.
Notation "x <- c ;; k" := (bind c (fun x => k))
  (at level 61, c at next level, right associativity) : m_scope.
Notation "' p <- c ;; k" := (bind c (fun x => match x with p => k end))
  (at level 61, p pattern, c at next level, right associativity) : m_scope.
Notation "c ;;; k" := (bind c (fun _ => k))
  (at level 61, right associativity) : m_scope.
Local Open Scope m_scope.

(** [try: body except Exception as e: handler(e)] *)
Definition try_except {A : Type} (body : M A) (handler : exn -> M A) : M A :=
  fun w =>
    match body w with
    | (Ok a, w') => (Ok a, w')
    | (Raise e, w') => handler e w'
    end.

Definition emit (e : event) : M unit :=
  fun w => (Ok tt, mkWorld (temp w) (events w ++ [e])).

Definition lift {A : Type} (r : result A) : M A := fun w => (r, w).

(** [with open('temp') as f: ... f] *)
Definition read_temp : M string := fun w => (Ok (temp w), w).

(** [with open('temp', 'w') as f: f.write(text)] *)
Definition write_temp (text : string) : M unit :=
  fun w => (Ok tt, mkWorld text (events w)).

(** [with open('temp', 'a+') as f: f.write(text)] *)
Definition append_temp (text : string) : M unit :=
  fun w => (Ok tt, mkWorld (temp w ++ text) (events w)).

(** [[
    try:
        os.makedirs(path)
    except OSError as e:
        if e.errno != errno.EEXIST:
            raise
    ]] *)
Definition makedirs_exist_ok (E : env) (path : string) : M unit :=
  emit (EvMakedirs path) ;;;
  match os_makedirs E path with
  | None => ret tt
  | Some errno => if Z.eqb errno EEXIST then ret tt else raise (OSError errno)
  end.

(** Modelled from the spec: the context manager [cd] of [utilities], which
    scopes the working directory to [path] and leaves it on every exit. *)
Definition with_cd {A : Type} (path : string) (body : M A) : M A :=
  emit (EvEnter path) ;;;
  fun w =>
    match body w with
    | (r, w') => (r, mkWorld (temp w') (events w' ++ [EvLeave path]))
    end.

(** Modelled from the spec: [remove_junk] of [utilities] removes the
    transient artifacts of the current working directory. *)
Definition remove_junk (wd : string) : M unit := emit (EvRemoveJunk wd).

(** Modelled from the spec: [property_log] of [utilities] appends one
    Property Record to the screening output. *)
Definition property_log (wd : string) (repeat : polymer)
    (vip vea gap f : string) (E_solv : option string) : M unit :=
  emit (EvPropertyLog wd repeat vip vea gap f E_solv).

(** Modelled from the spec: [error_log] of [utilities] appends the
    composition and the causing error to the error log. *)
Definition error_log (wd : string) (permutation : composition)
    (monomers_dict : pydict) (e : exn) : M unit :=
  emit (EvErrorLog wd permutation monomers_dict e).

(** A call of a pipeline stage inside the working directory [wd]. *)
Definition call_stage {A : Type} (st : stage) (wd : string) (r : result A) : M A :=
  emit (EvStage st wd) ;;; lift r.

(* ================================================================== *)
(** ** Session construction *)

(** [solvent not in valid_solvents] *)
Definition str_in (x : string) (l : list string) : bool :=
  if in_dec string_dec x l then true else false.

(** [Session.__init__]: the session directory is made, the solvent is
    checked against the allow-list, and the work-log is emptied. *)
Definition __init__ (E : env) (session_name : string)
    (length_repeat n_repeat n_confs : Z) (solvent : option string) : M Session :=
  makedirs_exist_ok E session_name ;;;
  solvent_info <-
    match solvent with
    | None => ret []
    | Some sv =>
        if negb (str_in sv (valid_solvents E))
        then raise (PyException "Invalid solvent choice. Valid solvents:"
                      (valid_solvents E))
        else ret ["-gbsa"; sv]
    end ;;
  write_temp "" ;;;
  ret (mkSession session_name length_repeat n_repeat n_confs solvent_info).

(* ================================================================== *)
(** ** Composition enumeration *)

(** [itertools.product(pool, repeat=n)], as the library documents it:
    [[
    pools = [tuple(pool)] * repeat
    result = [[]]
    for pool in pools:
        result = [x+[y] for x in result for y in pool]
    ]] *)
Definition product_step {A : Type} (pool : list A) (result : list (list A))
  : list (list A) :=
  flat_map (fun x => map (fun y => x ++ [y]) pool) result.

Fixpoint product_from {A : Type} (result : list (list A)) (pools : list (list A))
  : list (list A) :=
  match pools with
  | [] => result
  | pool :: rest => product_from (product_step pool result) rest
  end.

Definition product {A : Type} (pool : list A) (n : nat) : list (list A) :=
  product_from [[]] (repeat pool n).

(** A negative [repeat] is refused by [itertools.product]. *)
Definition itertools_product (pool : list string) (n : Z)
  : result (list composition) :=
  if (n <? 0)%Z then Raise (ValueError "repeat argument cannot be negative")
  else Ok (product pool (Z.to_nat n)).

(** [[
    for index, item in enumerate(itertools.product(...)):
        if index == choice:
            yield item
            counter += 1
    ]]
    At most one index equals [choice]. *)
Definition pick (prod : list composition) (choice : Z) : option composition :=
  if (choice <? 0)%Z then None else nth_error prod (Z.to_nat choice).

(** The [while counter < random_select] loop.  [draws] are the values that
    [random.randint(0, len_product)] returns, in order.  The result is what
    is yielded, and whether the loop was left ([false]: it asks for a draw
    beyond [draws]). *)
Fixpoint random_loop (prod : list composition) (random_select counter : Z)
    (draws : list Z) : list composition * bool :=
  if (counter <? random_select)%Z then
    match draws with
    | [] => ([], false)
    | choice :: rest =>
        match pick prod choice with
        | Some item =>
            let (items, left) := random_loop prod random_select (counter + 1) rest in
            (item :: items, left)
        | None => random_loop prod random_select counter rest
        end
    end
  else ([], true).

(** [Session.get_polymer_compositions].  [random_select] is [0] for
    [False]. The generator's items and whether it is exhausted. *)
Definition get_polymer_compositions (s : Session) (monomers_dict : pydict)
    (random_select : Z) (draws : list Z) : result (list composition * bool) :=
  let monomers := dict_keys monomers_dict in
  if (random_select =? 0)%Z then
    match itertools_product monomers (length_repeat s) with
    | Raise e => Raise e
    | Ok prod => Ok (prod, true)
    end
  else
    match itertools_product monomers (length_repeat s) with
    | Raise e => Raise e
    | Ok prod => Ok (random_loop prod random_select 0 draws)
    end.

(* ================================================================== *)
(** ** Dispatch with deduplication *)

(** The work-log as [screening_protocol] reads it:
    [screened = [tuple(i.split()) for i in f]]. *)
Definition parse_log (content : string) : list composition :=
  map PyStr.split (PyStr.readlines content).

(** The line written for a composition: [' '.join(list(permutation))+'\n']. *)
Definition log_line (permutation : composition) : string :=
  PyStr.join " " permutation ++ String PyStr.LF "".

(** The five stages in order, then [property_log] and [remove_junk]:
    the body of the [try]. *)
Definition pipeline (E : env) (s : Session) (wd : string)
    (permutation : composition) (monomers_dict : pydict) (name : string) : M unit :=
  '(polymer, repeat) <-
    call_stage GeneratePolymer wd
      (generate_polymer E s permutation monomers_dict name) ;;
  '(conf, E_conf) <- call_stage ConformerSearch wd (conformer_search E s polymer) ;;
  '(E_xtb, E_solv) <- call_stage XtbOpt wd (xtb_opt E s polymer) ;;
  '(vip, vea) <- call_stage XtbCalcPotentials wd (xtb_calc_potentials E s polymer) ;;
  '(gap, f) <- call_stage StdaCalcExcitation wd (stda_calc_excitation E s polymer) ;;
  property_log wd repeat vip vea gap f E_solv ;;;
  remove_junk wd.

(** Lines 175-176: the snapshot of the work-log. *)
Definition read_screened : M (list composition) :=
  content <- read_temp ;; ret (parse_log content).

(** Lines 178-202: the check against the snapshot, and the dispatch. *)
Definition dispatch_unless_screened (E : env) (s : Session)
    (permutation : composition) (monomers_dict : pydict)
    (screened : list composition) : M unit :=
  if negb (tuple_in permutation screened)
     && negb (tuple_in (rev permutation) screened)
  then
    append_temp (log_line permutation) ;;;
    let name := PyStr.join "-" permutation in
    let wd := (session_name s ++ "/" ++ name)%string in
    makedirs_exist_ok E wd ;;;
    with_cd wd
      (try_except
         (pipeline E s wd permutation monomers_dict name)
         (fun e => error_log wd permutation monomers_dict e ;;; remove_junk wd))
  else ret tt.

(** [Session.screening_protocol]; [time.sleep(1)] has no effect here. *)
Definition screening_protocol (E : env) (s : Session)
    (permutation : composition) (monomers_dict : pydict) : M unit :=
  screened <- read_screened ;;
  dispatch_unless_screened E s permutation monomers_dict screened.

(** [for id, smiles in monomers: monomers_dict[id] = smiles], where each
    element of [monomers] is [line.split()]. *)
Fixpoint fill_dict (monomers : list (list string)) (monomers_dict : pydict)
  : result pydict :=
  match monomers with
  | [] => Ok monomers_dict
  | [id; smiles] :: rest => fill_dict rest (dict_set id smiles monomers_dict)
  | _ :: _ => Raise (ValueError "wrong number of values to unpack")
  end.

(** The calls that [Parallel] makes when they run one after the other
    ([nprocs = 1]). *)
Fixpoint run_each (E : env) (s : Session) (monomers_dict : pydict)
    (permutations : list composition) : M unit :=
  match permutations with
  | [] => ret tt
  | permutation :: rest =>
      screening_protocol E s permutation monomers_dict ;;;
      run_each E s monomers_dict rest
  end.

(** [Session.screen] with [nprocs = 1].  [monomers_file] is the content of
    the monomer list.  Returns whether the generator was exhausted. *)
Definition screen (E : env) (s : Session) (monomers_file : string)
    (random_select : Z) (draws : list Z) : M bool :=
  monomers_dict <-
    lift (fill_dict (map PyStr.split (PyStr.readlines monomers_file)) []) ;;
  emit (EvWriteFile (session_name s ++ "/" ++ "screening-output")%string
          (output_header E)) ;;;
  '(permutations, exhausted) <-
    lift (get_polymer_compositions s monomers_dict random_select draws) ;;
  run_each E s monomers_dict permutations ;;;
  ret exhausted.

(** The world after the calls of [screen] that a script makes on one
    session, one after the other; a call is the monomer list, the sample
    count and the random draws. *)
Fixpoint after_screens (E : env) (s : Session)
    (calls : list (string * Z * list Z)) (w : world) : world :=
  match calls with
  | [] => w
  | (monomers_file, random_select, draws) :: rest =>
      after_screens E s rest
        (snd (screen E s monomers_file random_select draws w))
  end.

(* ================================================================== *)
(** ** Workers side by side *)

(** A delayed call of [screening_protocol] in a worker: not started, after
    its read of the work-log (holding the snapshot), or returned. *)
Inductive task : Type :=
| Queued (permutation : composition)
| Snapshot (permutation : composition) (screened : list composition)
| Returned (r : result unit).

(** One worker performs its next file access. *)
Definition task_step (E : env) (s : Session) (monomers_dict : pydict)
    (t : task) (w : world) : task * world :=
  match t with
  | Queued permutation =>
      match read_screened w with
      | (Ok screened, w') => (Snapshot permutation screened, w')
      | (Raise e, w') => (Returned (Raise e), w')
      end
  | Snapshot permutation screened =>
      match dispatch_unless_screened E s permutation monomers_dict screened w with
      | (r, w') => (Returned r, w')
      end
  | Returned r => (Returned r, w)
  end.

Fixpoint step_nth (E : env) (s : Session) (monomers_dict : pydict)
    (i : nat) (tasks : list task) (w : world) : list task * world :=
  match tasks, i with
  | [], _ => ([], w)
  | t :: rest, O =>
      let (t', w') := task_step E s monomers_dict t w in (t' :: rest, w')
  | t :: rest, S j =>
      let (rest', w') := step_nth E s monomers_dict j rest w in (t :: rest', w')
  end.

(** A schedule names, step by step, the worker that moves. *)
Fixpoint run_schedule (E : env) (s : Session) (monomers_dict : pydict)
    (schedule : list nat) (tasks : list task) (w : world) : list task * world :=
  match schedule with
  | [] => (tasks, w)
  | i :: rest =>
      let (tasks', w') := step_nth E s monomers_dict i tasks w in
      run_schedule E s monomers_dict rest tasks' w'
  end.

(** [Session.screen] with several workers: the calls that [Parallel] makes
    are handed to the workers, which move as [schedule] says.  The tasks at
    the end and the world. *)
Definition screen_pool (E : env) (s : Session) (monomers_file : string)
    (random_select : Z) (draws : list Z) (schedule : list nat) (w : world)
  : list task * world :=
  match fill_dict (map PyStr.split (PyStr.readlines monomers_file)) [] with
  | Raise e => ([], w)
  | Ok monomers_dict =>
      let w1 :=
        mkWorld (temp w)
          (events w ++ [EvWriteFile
             (session_name s ++ "/" ++ "screening-output")%string
             (output_header E)]) in
      match get_polymer_compositions s monomers_dict random_select draws with
      | Raise e => ([], w1)
      | Ok (permutations, _) =>
          run_schedule E s monomers_dict schedule (map Queued permutations) w1
      end
  end.

(** The schedule of one worker: task after task, each with both steps. *)
Definition in_sequence (first count : nat) : list nat :=
  flat_map (fun i => [i; i]) (seq first count).

(* ================================================================== *)
(** ** The sort pass over the screening output *)

(** [operator.itemgetter(0, 1)(line)]: the pair of the first two fields;
    [None] stands for the [IndexError] of a shorter line. *)
Definition itemgetter_0_1 (line : list string) : option (string * string) :=
  match line with
  | a :: b :: _ => Some (a, b)
  | _ => None
  end.

(** [<] on pairs of [str]: by the first components, then by the second;
    [str] compares by code points. *)
Definition key_lt (k1 k2 : string * string) : bool :=
  String.ltb (fst k1) (fst k2)
  || (String.eqb (fst k1) (fst k2) && String.ltb (snd k1) (snd k2)).

Definition keyed : Type := (string * string) * list string.

(** [list.sort(key=...)] computes every key first. *)
Fixpoint decorate (lines : list (list string)) : option (list keyed) :=
  match lines with
  | [] => Some []
  | line :: rest =>
      match itemgetter_0_1 line, decorate rest with
      | Some k, Some rest' => Some ((k, line) :: rest')
      | _, _ => None
      end
  end.

(** [list.sort] is stable: a line stays before the lines of the same key
    that followed it. *)
Fixpoint insert_keyed (x : keyed) (sorted : list keyed) : list keyed :=
  match sorted with
  | [] => [x]
  | y :: rest =>
      if key_lt (fst y) (fst x) then y :: insert_keyed x rest
      else x :: y :: rest
  end.

Fixpoint sort_keyed (l : list keyed) : list keyed :=
  match l with
  | [] => []
  | x :: rest => insert_keyed x (sort_keyed rest)
  end.

(** The format string of nine [{}] separated by tabs and ended by a
    newline, applied to the unpacked line: the first nine fields are used;
    [None] stands for the [IndexError] of a shorter line. *)
Definition format9 (line : list string) : option string :=
  match line with
  | a :: b :: c :: d :: e :: f :: g :: h :: i :: _ =>
      Some (PyStr.join (String PyStr.TAB "") [a; b; c; d; e; f; g; h; i]
            ++ String PyStr.LF "")%string
  | _ => None
  end.

(** The writes of the second [with]: what reaches the file, and the error
    that stops them. *)
Fixpoint write_lines (written : string) (lines : list (list string))
  : string * option exn :=
  match lines with
  | [] => (written, None)
  | line :: rest =>
      match format9 line with
      | Some text => write_lines (written ++ text) rest
      | None => (written, Some (IndexError "Replacement index out of range"))
      end
  end.

(** [Session.output_sort] on the content of [screening-output]: the new
    content, and the exception raised, if any. *)
Definition output_sort (file : string) : string * option exn :=
  let lines := map PyStr.split (PyStr.readlines file) in
  match lines with
  | [] => (file, Some (IndexError "list index out of range"))
  | header :: content =>
      match decorate content with
      | None => (file, Some (IndexError "list index out of range"))
      | Some dec => write_lines "" (header :: map snd (sort_keyed dec))
      end
  end.

(* ================================================================== *)
(** ** Examples *)

Definition demo_env : env :=
  mkEnv ["h2o"; "toluene"] "header"
    (fun _ => None)
    (fun _ _ _ name => Ok (mkPolymer name "polymer", mkPolymer name "repeat"))
    (fun _ _ => Ok (0%Z, "0.0"))
    (fun _ p =>
       if String.eqb (polymer_name p) "B-B" then Raise (StageFailure "xtb")
       else Ok ("-1.0", None))
    (fun _ _ => Ok ("6.0", "2.0"))
    (fun _ _ => Ok ("3.0", "0.5")).

Definition demo_session : Session := mkSession "run" 2 2 10 [].

Definition AB_catalog : pydict := [("A", "CCC"); ("B", "CCO")].

(** A monomer list with the two monomers [A] and [B]. *)
Definition AB_file : string :=
  PyStr.unlines ["A CCC"; "B CCO"].

Definition empty_world : world := mkWorld "" [].

(* ================================================================== *)
(** ** Vocabulary of the properties *)

(** Identifiers as [screen] reads them from the monomer list. *)
Definition tokens (c : composition) : Prop :=
  Forall (fun t => PyStr.is_token t = true) c.

(** The text of a work-log whose entries are [entries]. *)
Definition ledger (entries : list composition) : string :=
  PyStr.unlines (map (PyStr.join " ") entries).

(** A composition counts as handled when it or its reverse is an entry. *)
Definition handled (c : composition) (log : list composition) : bool :=
  tuple_in c log || tuple_in (rev c) log.

(** The entries after one call of [screening_protocol], and after a run of
    calls. *)
Definition record (log : list composition) (c : composition) : list composition :=
  if handled c log then log else log ++ [c].

Definition record_all (log : list composition) (cs : list composition)
  : list composition :=
  fold_left record cs log.

(** No entry equals, or is the reverse of, an entry at another place. *)
Definition sym_distinct (log : list composition) : Prop :=
  forall i j c d,
    (i < j)%nat -> nth_error log i = Some c -> nth_error log j = Some d ->
    d <> c /\ d <> rev c.

(** How often [c] is an entry. *)
Definition occurrences (c : composition) (log : list composition) : nat :=
  count_occ composition_eq_dec log c.

(** [os.makedirs(path)] succeeds or finds the directory. *)
Definition makedirs_ok (E : env) (path : string) : bool :=
  match os_makedirs E path with
  | None => true
  | Some errno => Z.eqb errno EEXIST
  end.

(** The Working Directory of a composition. *)
Definition working_dir (s : Session) (permutation : composition) : string :=
  (session_name s ++ "/" ++ PyStr.join "-" permutation)%string.

Definition all_stages : list stage :=
  [GeneratePolymer; ConformerSearch; XtbOpt; XtbCalcPotentials; StdaCalcExcitation].

(** The stages 1 to [stage_no st]. *)
Definition stages_upto (st : stage) : list stage := firstn (stage_no st) all_stages.

(** The pipeline of a composition raises [e] at stage [st]: the stages
    before [st] return, [st] raises. *)
Inductive raises_at (E : env) (s : Session) (permutation : composition)
    (monomers_dict : pydict) : stage -> exn -> Prop :=
| raises_generate e :
    generate_polymer E s permutation monomers_dict (PyStr.join "-" permutation)
      = Raise e ->
    raises_at E s permutation monomers_dict GeneratePolymer e
| raises_conformer polymer repeat e :
    generate_polymer E s permutation monomers_dict (PyStr.join "-" permutation)
      = Ok (polymer, repeat) ->
    conformer_search E s polymer = Raise e ->
    raises_at E s permutation monomers_dict ConformerSearch e
| raises_opt polymer repeat c e :
    generate_polymer E s permutation monomers_dict (PyStr.join "-" permutation)
      = Ok (polymer, repeat) ->
    conformer_search E s polymer = Ok c ->
    xtb_opt E s polymer = Raise e ->
    raises_at E s permutation monomers_dict XtbOpt e
| raises_potentials polymer repeat c o e :
    generate_polymer E s permutation monomers_dict (PyStr.join "-" permutation)
      = Ok (polymer, repeat) ->
    conformer_search E s polymer = Ok c ->
    xtb_opt E s polymer = Ok o ->
    xtb_calc_potentials E s polymer = Raise e ->
    raises_at E s permutation monomers_dict XtbCalcPotentials e
| raises_excitation polymer repeat c o p e :
    generate_polymer E s permutation monomers_dict (PyStr.join "-" permutation)
      = Ok (polymer, repeat) ->
    conformer_search E s polymer = Ok c ->
    xtb_opt E s polymer = Ok o ->
    xtb_calc_potentials E s polymer = Ok p ->
    stda_calc_excitation E s polymer = Raise e ->
    raises_at E s permutation monomers_dict StdaCalcExcitation e.

(** The [try] block of [screening_protocol] with its [except] clause. *)
Definition guarded_pipeline (E : env) (s : Session) (permutation : composition)
    (monomers_dict : pydict) : M unit :=
  try_except
    (pipeline E s (working_dir s permutation) permutation monomers_dict
       (PyStr.join "-" permutation))
    (fun e =>
       error_log (working_dir s permutation) permutation monomers_dict e ;;;
       remove_junk (working_dir s permutation)).

(** What a trace shows. *)
Definition stages_run (evs : list event) : list stage :=
  flat_map (fun ev => match ev with EvStage st _ => [st] | _ => [] end) evs.

Definition error_entries (evs : list event) : list (composition * exn) :=
  flat_map (fun ev => match ev with EvErrorLog _ c _ e => [(c, e)] | _ => [] end) evs.

Definition property_records (evs : list event) : list polymer :=
  flat_map
    (fun ev => match ev with EvPropertyLog _ r _ _ _ _ _ => [r] | _ => [] end) evs.

Definition junk_removals (evs : list event) : list string :=
  flat_map (fun ev => match ev with EvRemoveJunk wd => [wd] | _ => [] end) evs.

(** A draw that names a position of the product. *)
Definition valid_draw (prod : list composition) (choice : Z) : bool :=
  match pick prod choice with
  | Some _ => true
  | None => false
  end.

Definition valid_draws (prod : list composition) (draws : list Z) : nat :=
  List.length (filter (valid_draw prod) draws).

(** An effect keeps the work-log as it is. *)
Definition keeps_temp {A : Type} (c : M A) : Prop :=
  forall w, temp (snd (c w)) = temp w.

(** Lexicographic order on index tuples. *)
Fixpoint lex_lt (a b : list nat) : Prop :=
  match a, b with
  | [], [] => False
  | [], _ :: _ => True
  | _ :: _, [] => False
  | x :: a', y :: b' => (x < y)%nat \/ (x = y /\ lex_lt a' b')
  end.

(** A row of the screening output: nine fields. *)
Definition nine_fields (row : list string) : Prop :=
  List.length row = 9%nat /\ tokens row.

(** The text of a screening-output file with the given rows. *)
Definition tabbed (rows : list (list string)) : string :=
  PyStr.unlines (map (PyStr.join (String PyStr.TAB "")) rows).

(** The sort key of a row of at least two fields. *)
Definition row_key (row : list string) : string * string :=
  match row with
  | a :: b :: _ => (a, b)
  | _ => ("", "")
  end.

Definition key_le (k1 k2 : string * string) : Prop := key_lt k2 k1 = false.

Definition key_eqb (k1 k2 : string * string) : bool :=
  String.eqb (fst k1) (fst k2) && String.eqb (snd k1) (snd k2).

(** The rows of [rows] whose key is [k], in their order. *)
Definition rows_of_key (k : string * string) (rows : list (list string))
  : list (list string) :=
  filter (fun r => key_eqb (row_key r) k) rows.

(** Rows in the order of their keys. *)
Definition rows_sorted (rows : list (list string)) : Prop :=
  StronglySorted (fun r1 r2 => key_le (row_key r1) (row_key r2)) rows.

Definition keyed_le (a b : keyed) : Prop := key_le (fst a) (fst b).

(** Each line is decorated with its own key. *)
Definition own_key (kr : keyed) : Prop := fst kr = row_key (snd kr).

(** A header and three result rows, out of order. *)
Definition demo_header : list string :=
  ["ID1"; "ID2"; "SMILES"; "IP"; "EA"; "Gap"; "f"; "E_solv"; "E_xtb"].

Definition row_BA : list string :=
  ["B"; "A"; "CCOCCC"; "6.1"; "2.0"; "3.1"; "0.5"; "None"; "-1.0"].

Definition row_AC : list string :=
  ["A"; "C"; "CCCCCN"; "6.2"; "2.1"; "3.2"; "0.6"; "None"; "-1.1"].

Definition row_AB : list string :=
  ["A"; "B"; "CCCCCO"; "6.3"; "2.2"; "3.3"; "0.7"; "None"; "-1.2"].

(** A world left behind by an earlier session. *)
Definition used_world : world := mkWorld (ledger [["A"; "B"]; ["B"; "B"]]) [].

(** A catalog of one monomer, and a session with repeat length 1. *)
Definition A_catalog : pydict := [("A", "CCC")].

Definition A_session : Session := mkSession "run" 1 2 10 [].

(* ================================================================== *)
(** ** The rest of the session *)

(** [monomers_dict[id]]; [None] stands for the [KeyError]. *)
Fixpoint dict_get (k : string) (d : pydict) : option string :=
  match d with
  | [] => None
  | (k', v) :: d' => if String.eqb k k' then Some v else dict_get k d'
  end.

(** [string.ascii_uppercase] *)
Definition ascii_uppercase : string := "ABCDEFGHIJKLMNOPQRSTUVWXYZ".

(** [string.ascii_uppercase[i]] for [i] from [range]. *)
Definition uppercase_at (i : nat) : result string :=
  match String.get i ascii_uppercase with
  | Some c => Ok (String c "")
  | None => Raise (IndexError "string index out of range")
  end.

(** [[
    for i in range(len(smiles)):
        monomers_dict[string.ascii_uppercase[i]] = smiles[i]
        permutation.append(string.ascii_uppercase[i])
    ]]
    from index [i] on. *)
Fixpoint label_monomers (i : nat) (smiles : list string)
    (monomers_dict : pydict) (permutation : composition)
  : result (pydict * composition) :=
  match smiles with
  | [] => Ok (monomers_dict, permutation)
  | sm :: rest =>
      match uppercase_at i with
      | Raise e => Raise e
      | Ok letter =>
          label_monomers (S i) rest (dict_set letter sm monomers_dict)
            (permutation ++ [letter])
      end
  end.

(** [Session.calc_polymer_properties].  [print] is a write to the standard
    output; [format_properties] is the text that [print_formatted_properties]
    of [utilities] prints, [str_exn] is [str(e)]. *)
Definition calc_polymer_properties (E : env)
    (format_properties :
       string -> string -> string -> string -> string -> option string -> string)
    (str_exn : exn -> string)
    (s : Session) (smiles : list string) (name : string) : M unit :=
  '(monomers_dict, permutation) <- lift (label_monomers 0 smiles [] []) ;;
  let wd := session_name s in
  with_cd wd
    (try_except
       ('(polymer, repeat) <-
          call_stage GeneratePolymer wd
            (generate_polymer E s permutation monomers_dict name) ;;
        '(conf, E_conf) <-
          call_stage ConformerSearch wd (conformer_search E s polymer) ;;
        '(E_xtb, E_solv) <- call_stage XtbOpt wd (xtb_opt E s polymer) ;;
        '(vip, vea) <-
          call_stage XtbCalcPotentials wd (xtb_calc_potentials E s polymer) ;;
        '(gap, f) <-
          call_stage StdaCalcExcitation wd (stda_calc_excitation E s polymer) ;;
        emit (EvWriteFile "<stdout>"
                (format_properties (polymer_name polymer) vip vea gap f E_solv)) ;;;
        remove_junk wd)
       (fun e => emit (EvWriteFile "<stdout>" (str_exn e)) ;;; remove_junk wd)).

(** *** Reading the transcripts *)

Fixpoint str_drop (n : nat) (s : string) : string :=
  match n, s with
  | O, _ => s
  | S n', String _ s' => str_drop n' s'
  | S _, EmptyString => EmptyString
  end.

Fixpoint str_take (n : nat) (s : string) : string :=
  match n, s with
  | O, _ => EmptyString
  | S n', String c s' => String c (str_take n' s')
  | S _, EmptyString => EmptyString
  end.

(** A slice bound as Python clamps it: counted from the end when negative,
    and kept within [0, len]. *)
Definition clamp (len : nat) (i : Z) : nat :=
  if (i <? 0)%Z then Z.to_nat (Z.max 0 (Z.of_nat len + i))
  else Nat.min (Z.to_nat i) len.

(** [s[start:]] *)
Definition slice_from (start : Z) (s : string) : string :=
  str_drop (clamp (String.length s) start) s.

(** [s[start:stop]] *)
Definition slice (start stop : Z) (s : string) : string :=
  let a := clamp (String.length s) start in
  let b := clamp (String.length s) stop in
  str_take (b - a) (str_drop a s).

(** [s.find(sub)] *)
Definition py_find (sub s : string) : Z :=
  match String.index 0 sub s with
  | Some i => Z.of_nat i
  | None => (-1)%Z
  end.

(** [tokens[n]] *)
Definition token_at (n : nat) (toks : list string) : result string :=
  match nth_error toks n with
  | Some t => Ok t
  | None => Raise (IndexError "list index out of range")
  end.

(** [output[output.find(marker):].split()[n]] *)
Definition token_after (marker : string) (n : nat) (output : string)
  : result string :=
  token_at n (PyStr.split (slice_from (py_find marker output) output)).

(** [Session.xtb_calc_potentials], with [run_calc] of [utilities] as the
    function from the command line to the transcript. *)
Definition Session_xtb_calc_potentials (run_calc : list string -> result string)
    (s : Session) (p : polymer) : result (string * string) :=
  let xyzfile := (polymer_name p ++ "-opt.xyz")%string in
  match run_calc (["xtb"; xyzfile; "-vip"] ++ solvent_info s) with
  | Raise e => Raise e
  | Ok output =>
      match token_after "delta SCC IP" 4 output with
      | Raise e => Raise e
      | Ok vip =>
          match run_calc (["xtb"; xyzfile; "-vea"] ++ solvent_info s) with
          | Raise e => Raise e
          | Ok output' =>
              match token_after "delta SCC EA" 4 output' with
              | Raise e => Raise e
              | Ok vea => Ok (vip, vea)
              end
          end
      end
  end.

(** [Session.stda_calc_excitation]: the transcript of the first call is
    dropped; the copy of the second that goes to ['stda-calc.out'] is not
    part of the result. *)
Definition Session_stda_calc_excitation (run_calc : list string -> result string)
    (s : Session) (p : polymer) : result (string * string) :=
  let xyzfile := (polymer_name p ++ "-opt.xyz")%string in
  match run_calc (["xtb"; xyzfile] ++ solvent_info s) with
  | Raise e => Raise e
  | Ok _ =>
      match run_calc ["stda"; "-xtb"; "-e"; "8"] with
      | Raise e => Raise e
      | Ok output =>
          match token_after "excitation energies" 13 output with
          | Raise e => Raise e
          | Ok gap =>
              match token_after "excitation energies" 15 output with
              | Raise e => Raise e
              | Ok f => Ok (gap, f)
              end
          end
      end
  end.

(** The first assignment of either branch of [Session.xtb_opt]:
    [E_xtb = output[-900:-100].split()[27]] with a solvent, [[29]] without. *)
Definition xtb_opt_E_xtb (s : Session) (output : string) : result string :=
  token_at
    (match solvent_info s with
     | [] => 29
     | _ :: _ => 27
     end)
    (PyStr.split (slice (-900) (-100) output)).

(** The text [marker] occurs in [output]. *)
Definition occurs (marker output : string) : Prop :=
  exists before after, output = (before ++ marker ++ after)%string.

(** The descriptor of the last line of the monomer list that names [id]. *)
Fixpoint last_descriptor (id : string) (monomers : list (list string))
  : option string :=
  match monomers with
  | [] => None
  | line :: rest =>
      match last_descriptor id rest with
      | Some smiles => Some smiles
      | None =>
          match line with
          | [id'; smiles] => if String.eqb id id' then Some smiles else None
          | _ => None
          end
      end
  end.

(** The compositions that the draws name, in the order of the draws. *)
Definition picked (prod : list composition) (draws : list Z) : list composition :=
  flat_map (fun choice => match pick prod choice with
                          | Some item => [item]
                          | None => []
                          end) draws.

(** Surroundings in which no directory can be made (errno 13, EACCES). *)
Definition locked_env : env :=
  mkEnv ["h2o"] "header" (fun _ => Some 13%Z)
    (generate_polymer demo_env) (conformer_search demo_env) (xtb_opt demo_env)
    (xtb_calc_potentials demo_env) (stda_calc_excitation demo_env).

(** The selection loop of [Session.conformer_search]:
    [[
    lowest_energy = 10**10
    for conf in confs:
        energy = ...
        if energy < lowest_energy:
            lowest_energy = energy
            lowest_conf = conf
    ]]
    over the conformers with their energies, in embedding order.  [ltb] is
    [<] on energies; [lowest_conf] is [None] while it is unbound. *)
Fixpoint lowest_from {En : Type} (ltb : En -> En -> bool)
    (confs : list (Z * En)) (lowest_energy : En) (lowest_conf : option Z)
  : En * option Z :=
  match confs with
  | [] => (lowest_energy, lowest_conf)
  | (conf, energy) :: rest =>
      if ltb energy lowest_energy
      then lowest_from ltb rest energy (Some conf)
      else lowest_from ltb rest lowest_energy lowest_conf
  end.

(** The loop and the use of [lowest_conf] after it; [bound] is [10**10]. *)
Definition conformer_lowest {En : Type} (ltb : En -> En -> bool) (bound : En)
    (confs : list (Z * En)) : result (Z * En) :=
  match lowest_from ltb confs bound None with
  | (lowest_energy, Some lowest_conf) => Ok (lowest_conf, lowest_energy)
  | (_, None) => Raise (StageFailure "UnboundLocalError")
  end.

(* ================================================================== *)
(** * Facts *)

(** ** Text: what is written is what is read back *)

Module PyStrFacts.
Import PyStr.

Lemma append_nil_r (s : string) : (s ++ "")%string = s.
Proof. induction s as [|c s IH]; simpl; [reflexivity | now rewrite IH]. Qed.

Lemma append_assoc (a b c : string) :
  ((a ++ b) ++ c)%string = (a ++ (b ++ c))%string.
Proof. induction a as [|x a IH]; simpl; [reflexivity | now rewrite IH]. Qed.

Lemma snoc_append (cur : string) (c : ascii) (s : string) :
  (snoc cur c ++ s)%string = (cur ++ String c s)%string.
Proof. unfold snoc. now rewrite append_assoc. Qed.

Lemma is_empty_append (a b : string) :
  is_empty (a ++ b) = is_empty a && is_empty b.
Proof. destruct a; reflexivity. Qed.

Lemma is_space_LF : is_space LF = true.
Proof. reflexivity. Qed.

Lemma is_space_CR : is_space CR = true.
Proof. reflexivity. Qed.

Lemma not_space_inline_char (c : ascii) : is_space c = false -> inline_char c = true.
Proof.
  intros H. unfold inline_char.
  destruct (Ascii.eqb_spec c LF) as [->|_]; [now rewrite is_space_LF in H|].
  destruct (Ascii.eqb_spec c CR) as [->|_]; [now rewrite is_space_CR in H|].
  reflexivity.
Qed.

Lemma no_space_inline (s : string) : no_space s = true -> inline s = true.
Proof.
  induction s as [|c s IH]; simpl; [reflexivity|].
  intros H. apply andb_true_iff in H as [Hc Hs].
  apply negb_true_iff in Hc.
  now rewrite (not_space_inline_char _ Hc), IH.
Qed.

Lemma inline_append (a b : string) : inline (a ++ b) = inline a && inline b.
Proof.
  induction a as [|c a IH]; simpl; [reflexivity|].
  now rewrite IH, andb_assoc.
Qed.

Lemma no_space_append (a b : string) : no_space (a ++ b) = no_space a && no_space b.
Proof.
  induction a as [|c a IH]; simpl; [reflexivity|].
  now rewrite IH, andb_assoc.
Qed.

(** *** [split] *)

Lemma split_go_token (tok : string) :
  no_space tok = true ->
  forall cur rest, split_go cur (tok ++ rest) = split_go (cur ++ tok) rest.
Proof.
  induction tok as [|c tok IH]; simpl; intros H cur rest.
  - now rewrite append_nil_r.
  - apply andb_true_iff in H as [Hc Hs]. apply negb_true_iff in Hc.
    rewrite Hc, (IH Hs). now rewrite snoc_append.
Qed.

Lemma is_token_parts (tok : string) :
  is_token tok = true -> is_empty tok = false /\ no_space tok = true.
Proof.
  unfold is_token. intros H. apply andb_true_iff in H as [H1 H2].
  now apply negb_true_iff in H1.
Qed.

(** A token followed by a space character comes out of [split_go] first. *)
Lemma split_go_token_space (tok : string) (c : ascii) (rest : string) :
  is_token tok = true -> is_space c = true ->
  split_go "" (tok ++ String c rest) = tok :: split_go "" rest.
Proof.
  intros Ht Hc. apply is_token_parts in Ht as [Hne Hns].
  rewrite (split_go_token _ Hns). simpl. now rewrite Hc, Hne.
Qed.

(** The tokens of a line joined by one space character and ended by a line
    feed are read back by [split]. *)
Lemma split_join (sep : ascii) (toks : list string) :
  is_space sep = true ->
  Forall (fun t => is_token t = true) toks ->
  split (join (String sep "") toks ++ String LF "") = toks.
Proof.
  intros Hsep Htoks. unfold split.
  induction Htoks as [|t toks Ht Hrest IH]; [reflexivity|].
  destruct toks as [|t' toks'].
  - simpl. rewrite (split_go_token_space _ _ _ Ht is_space_LF). reflexivity.
  - change (join (String sep "") (t :: t' :: toks'))
      with (t ++ String sep "" ++ join (String sep "") (t' :: toks'))%string.
    rewrite !append_assoc. cbn [append].
    rewrite (split_go_token_space _ _ _ Ht Hsep). now rewrite IH.
Qed.

(** *** [readlines] *)

Lemma universal_newlines_no_cr (s : string) :
  no_cr s = true -> universal_newlines s = s.
Proof.
  induction s as [|c s IH]; [reflexivity|].
  cbn [no_cr universal_newlines]. intros H. apply andb_true_iff in H as [Hc Hs].
  apply negb_true_iff in Hc. rewrite Hc. now rewrite (IH Hs).
Qed.

Lemma no_cr_append (a b : string) : no_cr (a ++ b) = no_cr a && no_cr b.
Proof.
  induction a as [|c a IH]; simpl; [reflexivity|].
  now rewrite IH, andb_assoc.
Qed.

Lemma inline_no_cr (s : string) : inline s = true -> no_cr s = true.
Proof.
  induction s as [|c s IH]; simpl; [reflexivity|].
  unfold inline_char. intros H.
  apply andb_true_iff in H as [Hc Hs]. apply andb_true_iff in Hc as [_ Hc].
  now rewrite Hc, IH.
Qed.

Lemma lines_go_inline (body : string) :
  inline body = true ->
  forall cur rest,
    lines_go cur (body ++ String LF rest)
    = (cur ++ body ++ String LF "")%string :: lines_go "" rest.
Proof.
  induction body as [|c body IH]; simpl; intros H cur rest.
  - reflexivity.
  - apply andb_true_iff in H as [Hc Hs].
    unfold inline_char in Hc. apply andb_true_iff in Hc as [Hc _].
    apply negb_true_iff in Hc. rewrite Hc, (IH Hs). now rewrite snoc_append.
Qed.

Lemma no_cr_unlines (bodies : list string) :
  Forall (fun b => inline b = true) bodies -> no_cr (unlines bodies) = true.
Proof.
  induction 1 as [|b bodies Hb _ IH]; [reflexivity|].
  simpl. rewrite no_cr_append. simpl. now rewrite (inline_no_cr _ Hb), IH.
Qed.

Lemma readlines_unlines (bodies : list string) :
  Forall (fun b => inline b = true) bodies ->
  readlines (unlines bodies) = map (fun b => (b ++ String LF "")%string) bodies.
Proof.
  intros H. unfold readlines.
  rewrite (universal_newlines_no_cr _ (no_cr_unlines _ H)).
  induction H as [|b bodies Hb _ IH]; [reflexivity|].
  simpl. rewrite (lines_go_inline _ Hb). simpl. now rewrite IH.
Qed.

Lemma unlines_app (a b : list string) :
  unlines (a ++ b) = (unlines a ++ unlines b)%string.
Proof.
  induction a as [|x a IH]; simpl; [reflexivity|].
  rewrite IH. now rewrite append_assoc.
Qed.

Lemma inline_join (sep : ascii) (toks : list string) :
  inline_char sep = true ->
  Forall (fun t => is_token t = true) toks ->
  inline (join (String sep "") toks) = true.
Proof.
  intros Hsep H. induction H as [|t toks Ht _ IH]; [reflexivity|].
  apply is_token_parts in Ht as [_ Hns].
  destruct toks as [|t' toks'].
  - simpl. now apply no_space_inline.
  - change (join (String sep "") (t :: t' :: toks'))
      with (t ++ String sep "" ++ join (String sep "") (t' :: toks'))%string.
    rewrite !inline_append. cbn [inline].
    now rewrite (no_space_inline _ Hns), Hsep, IH.
Qed.

(** Rows of tokens, written one per line with the fields joined by a space
    character, are read back row by row. *)
Lemma read_rows (sep : ascii) (rows : list (list string)) :
  is_space sep = true -> inline_char sep = true ->
  Forall (Forall (fun t => is_token t = true)) rows ->
  map split (readlines (unlines (map (join (String sep "")) rows))) = rows.
Proof.
  intros Hsp Hin Hrows.
  rewrite readlines_unlines.
  - rewrite !map_map.
    induction Hrows as [|r rows Hr _ IH]; [reflexivity|].
    simpl. now rewrite (split_join _ _ Hsp Hr), IH.
  - apply Forall_map. eapply Forall_impl; [|exact Hrows].
    intros r Hr. now apply inline_join.
Qed.

(** [split] returns tokens only. *)
Lemma split_go_tokens (s : string) :
  forall cur, no_space cur = true ->
    Forall (fun t => is_token t = true) (split_go cur s).
Proof.
  induction s as [|c s IH]; simpl; intros cur Hcur.
  - destruct cur; simpl; [constructor|].
    constructor; [|constructor]. unfold is_token. simpl. exact Hcur.
  - destruct (is_space c) eqn:Hc.
    + destruct cur; simpl.
      * now apply IH.
      * constructor; [unfold is_token; simpl; exact Hcur | now apply IH].
    + apply IH. unfold snoc. rewrite no_space_append. simpl.
      now rewrite Hcur, Hc.
Qed.

Lemma split_tokens (s : string) : Forall (fun t => is_token t = true) (split s).
Proof. now apply split_go_tokens. Qed.

End PyStrFacts.

(* ================================================================== *)
(** ** Effects that leave the work-log alone *)

Create HintDb frame.

Lemma keeps_temp_ret {A : Type} (a : A) : keeps_temp (ret a).
Proof. intros w. reflexivity. Qed.

Lemma keeps_temp_raise {A : Type} (e : exn) : keeps_temp (@raise A e).
Proof. intros w. reflexivity. Qed.

Lemma keeps_temp_lift {A : Type} (r : result A) : keeps_temp (lift r).
Proof. intros w. reflexivity. Qed.

Lemma keeps_temp_emit (ev : event) : keeps_temp (emit ev).
Proof. intros w. reflexivity. Qed.

Lemma keeps_temp_bind {A B : Type} (c : M A) (k : A -> M B) :
  keeps_temp c -> (forall a, keeps_temp (k a)) -> keeps_temp (bind c k).
Proof.
  intros Hc Hk w. unfold bind. specialize (Hc w).
  destruct (c w) as [[a|e] w1]; simpl in *; [|assumption].
  now rewrite (Hk a w1).
Qed.

Lemma keeps_temp_try_except {A : Type} (body : M A) (handler : exn -> M A) :
  keeps_temp body -> (forall e, keeps_temp (handler e)) ->
  keeps_temp (try_except body handler).
Proof.
  intros Hb Hh w. unfold try_except. specialize (Hb w).
  destruct (body w) as [[a|e] w1]; simpl in *; [assumption|].
  now rewrite (Hh e w1).
Qed.

Lemma keeps_temp_with_cd {A : Type} (path : string) (body : M A) :
  keeps_temp body -> keeps_temp (with_cd path body).
Proof.
  intros Hb w. unfold with_cd, bind, emit. simpl.
  specialize (Hb (mkWorld (temp w) (events w ++ [EvEnter path]))).
  destruct (body _) as [r w1]. simpl in *. assumption.
Qed.

Lemma keeps_temp_makedirs (E : env) (path : string) :
  keeps_temp (makedirs_exist_ok E path).
Proof.
  unfold makedirs_exist_ok. apply keeps_temp_bind; [apply keeps_temp_emit|].
  intros _. destruct (os_makedirs E path) as [errno|]; [|apply keeps_temp_ret].
  destruct (Z.eqb errno EEXIST); [apply keeps_temp_ret | apply keeps_temp_raise].
Qed.

#[export] Hint Resolve keeps_temp_ret keeps_temp_raise keeps_temp_lift
  keeps_temp_emit keeps_temp_makedirs : frame.

(** Splits a sequence of effects into its steps. *)
Ltac frame_steps :=
  repeat first
    [ apply keeps_temp_bind; [|intros]
    | apply keeps_temp_try_except; [|intros]
    | apply keeps_temp_with_cd
    | match goal with
      | |- keeps_temp (match ?x with pair _ _ => _ end) => destruct x
      end
    | solve [unfold call_stage, property_log, error_log, remove_junk;
             auto with frame]
    | unfold call_stage, property_log, error_log, remove_junk ].

Lemma keeps_temp_pipeline (E : env) (s : Session) (wd : string)
    (permutation : composition) (monomers_dict : pydict) (name : string) :
  keeps_temp (pipeline E s wd permutation monomers_dict name).
Proof. unfold pipeline. frame_steps. Qed.

Lemma keeps_temp_guarded (E : env) (s : Session) (wd : string)
    (permutation : composition) (monomers_dict : pydict) (name : string) :
  keeps_temp
    (with_cd wd
       (try_except (pipeline E s wd permutation monomers_dict name)
          (fun e => error_log wd permutation monomers_dict e ;;; remove_junk wd))).
Proof.
  apply keeps_temp_with_cd, keeps_temp_try_except.
  - apply keeps_temp_pipeline.
  - intros e. frame_steps.
Qed.

(** ** The work-log after a dispatch *)

Lemma dispatch_temp (E : env) (s : Session) (permutation : composition)
    (monomers_dict : pydict) (screened : list composition) (w : world) :
  temp (snd (dispatch_unless_screened E s permutation monomers_dict screened w))
  = if handled permutation screened then temp w
    else (temp w ++ log_line permutation)%string.
Proof.
  unfold dispatch_unless_screened, handled.
  destruct (tuple_in permutation screened); simpl; [reflexivity|].
  destruct (tuple_in (rev permutation) screened); simpl; [reflexivity|].
  unfold bind at 1. unfold append_temp at 1.
  match goal with
  | |- temp (snd (?c ?w1)) = _ =>
      assert (H : keeps_temp c);
      [| exact (H w1)]
  end.
  apply keeps_temp_bind; [apply keeps_temp_makedirs|].
  intros _. apply keeps_temp_guarded.
Qed.

Lemma screening_protocol_temp (E : env) (s : Session) (permutation : composition)
    (monomers_dict : pydict) (w : world) :
  temp (snd (screening_protocol E s permutation monomers_dict w))
  = if handled permutation (parse_log (temp w)) then temp w
    else (temp w ++ log_line permutation)%string.
Proof.
  unfold screening_protocol, read_screened, read_temp, bind, ret.
  apply dispatch_temp.
Qed.

(* ================================================================== *)
(** ** The product of a pool with itself *)

Section Product.
Context {A : Type}.

Lemma product_from_app (pools1 pools2 : list (list A)) :
  forall result,
    product_from result (pools1 ++ pools2)
    = product_from (product_from result pools1) pools2.
Proof.
  induction pools1 as [|p pools1 IH]; intros result; simpl; [reflexivity|].
  apply IH.
Qed.

Lemma product_succ (pool : list A) (n : nat) :
  product pool (S n) = product_step pool (product pool n).
Proof.
  unfold product. simpl repeat. rewrite repeat_cons, product_from_app.
  reflexivity.
Qed.

Lemma product_zero (pool : list A) : product pool 0 = [[]].
Proof. reflexivity. Qed.

Lemma in_product_step (pool : list A) (result : list (list A)) (t : list A) :
  In t (product_step pool result)
  <-> exists x y, t = x ++ [y] /\ In x result /\ In y pool.
Proof.
  unfold product_step. rewrite in_flat_map. split.
  - intros (x & Hx & Ht). apply in_map_iff in Ht as (y & <- & Hy).
    now exists x, y.
  - intros (x & y & -> & Hx & Hy). exists x. split; [assumption|].
    apply in_map_iff. now exists y.
Qed.

(** Every tuple of the product has [n] components from the pool, and every
    such tuple is in the product. *)
Lemma in_product (pool : list A) (n : nat) (t : list A) :
  In t (product pool n) <-> List.length t = n /\ Forall (fun y => In y pool) t.
Proof.
  revert t. induction n as [|n IH]; intros t.
  - rewrite product_zero. simpl. split.
    + intros [<-|[]]. split; [reflexivity|constructor].
    + intros [Hl _]. destruct t; [now left|discriminate].
  - rewrite product_succ, in_product_step. split.
    + intros (x & y & -> & Hx & Hy). apply IH in Hx as [Hl Hf].
      rewrite length_app. simpl. split; [lia|].
      apply Forall_app. split; [assumption|]. now constructor.
    + intros [Hl Hf]. destruct (exists_last (l := t)) as (x & y & ->).
      { intros ->. discriminate. }
      apply Forall_app in Hf as [Hx Hy]. inversion Hy; subst.
      exists x, y. split; [reflexivity|]. split; [|assumption].
      apply IH. split; [|assumption].
      rewrite length_app in Hl. simpl in Hl. lia.
Qed.

Lemma length_product_step (pool : list A) (result : list (list A)) :
  List.length (product_step pool result)
  = (List.length result * List.length pool)%nat.
Proof.
  unfold product_step. induction result as [|x result IH]; [reflexivity|].
  simpl. rewrite length_app, length_map, IH. reflexivity.
Qed.

Lemma length_product (pool : list A) (n : nat) :
  List.length (product pool n) = (List.length pool ^ n)%nat.
Proof.
  induction n as [|n IH]; [reflexivity|].
  rewrite product_succ, length_product_step, IH. simpl. lia.
Qed.

Lemma NoDup_snoc_all (pool : list A) (x : list A) :
  NoDup pool -> NoDup (map (fun y => x ++ [y]) pool).
Proof.
  intros H. apply Finite.Injective_map_NoDup; [|assumption].
  intros y y' Heq. now apply app_inj_tail in Heq.
Qed.

Lemma NoDup_product_step (pool : list A) (result : list (list A)) :
  NoDup pool -> NoDup result -> NoDup (product_step pool result).
Proof.
  intros Hp Hr. unfold product_step.
  induction Hr as [|x result Hx Hr IH]; simpl; [constructor|].
  apply NoDup_app; [now apply NoDup_snoc_all | assumption |].
  intros t Ht Ht'. apply in_map_iff in Ht as (y & <- & _).
  apply in_flat_map in Ht' as (x' & Hx' & Ht').
  apply in_map_iff in Ht' as (y' & Heq & _).
  apply app_inj_tail in Heq as [-> _]. contradiction.
Qed.

(** Distinct pool elements give pairwise distinct tuples. *)
Lemma NoDup_product (pool : list A) (n : nat) :
  NoDup pool -> NoDup (product pool n).
Proof.
  intros Hp. induction n as [|n IH].
  - rewrite product_zero. constructor; [intros []|constructor].
  - rewrite product_succ. now apply NoDup_product_step.
Qed.

End Product.

(* ================================================================== *)
(** ** The work-log as a list of entries *)

Lemma ledger_snoc (entries : list composition) (c : composition) :
  ledger (entries ++ [c]) = (ledger entries ++ log_line c)%string.
Proof.
  unfold ledger, log_line. rewrite map_app, PyStrFacts.unlines_app.
  reflexivity.
Qed.

Lemma parse_ledger (entries : list composition) :
  Forall tokens entries -> parse_log (ledger entries) = entries.
Proof.
  intros H. unfold parse_log, ledger.
  apply (PyStrFacts.read_rows " "%char); [reflexivity | reflexivity | exact H].
Qed.

Lemma tuple_in_true (c : composition) (log : list composition) :
  tuple_in c log = true <-> In c log.
Proof.
  unfold tuple_in. destruct (in_dec composition_eq_dec c log); split;
    intros; try assumption; try reflexivity; try discriminate; contradiction.
Qed.

Lemma tuple_in_false (c : composition) (log : list composition) :
  tuple_in c log = false <-> ~ In c log.
Proof.
  rewrite <- tuple_in_true. destruct (tuple_in c log); split; intros H;
    try discriminate; try reflexivity; try (intros H'; discriminate).
  now elim H.
Qed.

Lemma handled_false (c : composition) (log : list composition) :
  handled c log = false <-> ~ In c log /\ ~ In (rev c) log.
Proof.
  unfold handled. rewrite orb_false_iff, !tuple_in_false. reflexivity.
Qed.

Lemma record_tokens (log : list composition) (c : composition) :
  Forall tokens log -> tokens c -> Forall tokens (record log c).
Proof.
  intros Hl Hc. unfold record. destruct (handled c log); [assumption|].
  apply Forall_app. split; [assumption|]. now constructor.
Qed.

Lemma sym_distinct_nil : sym_distinct [].
Proof. intros i j c d _ H. destruct i; discriminate. Qed.

(** Recording keeps the entries free of repeats and of reverses. *)
Lemma record_sym_distinct (log : list composition) (c : composition) :
  sym_distinct log -> sym_distinct (record log c).
Proof.
  intros Hlog. unfold record. destruct (handled c log) eqn:Hh; [assumption|].
  apply handled_false in Hh as [Hc Hr].
  intros i j x y Hij Hi Hj.
  destruct (Nat.lt_ge_cases j (List.length log)) as [Hlt|Hge].
  - rewrite nth_error_app1 in Hi by lia. rewrite nth_error_app1 in Hj by lia.
    exact (Hlog i j x y Hij Hi Hj).
  - assert (Hilt : (i < List.length log)%nat).
    { apply nth_error_Some. intros Hn.
      assert (Hsome : nth_error (log ++ [c]) j <> None) by congruence.
      apply nth_error_Some in Hsome. rewrite length_app in Hsome. simpl in Hsome.
      assert (Hi' : nth_error (log ++ [c]) i <> None) by congruence.
      rewrite nth_error_app1 in Hi; [congruence|].
      apply nth_error_Some in Hi'. rewrite length_app in Hi'. simpl in Hi'. lia. }
    rewrite nth_error_app1 in Hi by assumption.
    rewrite nth_error_app2 in Hj by assumption.
    assert (Hy : y = c).
    { destruct (j - List.length log)%nat as [|k]; simpl in Hj.
      - congruence.
      - destruct k; discriminate. }
    subst y. apply nth_error_In in Hi. split.
    + intros ->. contradiction.
    + intros ->. rewrite rev_involutive in Hr. contradiction.
Qed.

Lemma record_all_tokens (cs : list composition) :
  forall log, Forall tokens log -> Forall tokens cs ->
    Forall tokens (record_all log cs).
Proof.
  induction cs as [|c cs IH]; intros log Hl Hcs; [assumption|].
  inversion Hcs; subst. simpl. apply IH; [|assumption].
  now apply record_tokens.
Qed.

Lemma record_all_sym_distinct (cs : list composition) :
  forall log, sym_distinct log -> sym_distinct (record_all log cs).
Proof.
  induction cs as [|c cs IH]; intros log Hl; [assumption|].
  simpl. apply IH. now apply record_sym_distinct.
Qed.

Lemma record_all_app (cs1 cs2 : list composition) (log : list composition) :
  record_all log (cs1 ++ cs2) = record_all (record_all log cs1) cs2.
Proof. unfold record_all. apply fold_left_app. Qed.

(** One call of [screening_protocol] on a work-log of entries. *)
Lemma screening_protocol_ledger (E : env) (s : Session) (c : composition)
    (monomers_dict : pydict) (w : world) (entries : list composition) :
  temp w = ledger entries -> Forall tokens entries ->
  temp (snd (screening_protocol E s c monomers_dict w))
  = ledger (record entries c).
Proof.
  intros Hw He. rewrite screening_protocol_temp, Hw, (parse_ledger _ He).
  unfold record. destruct (handled c entries); [reflexivity|].
  now rewrite ledger_snoc.
Qed.

Lemma run_each_cons (E : env) (s : Session) (monomers_dict : pydict)
    (c : composition) (cs : list composition) (w : world) :
  run_each E s monomers_dict (c :: cs) w
  = match screening_protocol E s c monomers_dict w with
    | (Ok _, w1) => run_each E s monomers_dict cs w1
    | (Raise e, w1) => (Raise e, w1)
    end.
Proof. reflexivity. Qed.

(** A run of calls handles a prefix of the compositions: all of them when
    it returns. *)
Lemma run_each_ledger (E : env) (s : Session) (monomers_dict : pydict)
    (cs : list composition) :
  forall (w : world) (entries : list composition),
    temp w = ledger entries -> Forall tokens entries -> Forall tokens cs ->
    exists done rest,
      cs = done ++ rest
      /\ temp (snd (run_each E s monomers_dict cs w))
         = ledger (record_all entries done)
      /\ (fst (run_each E s monomers_dict cs w) = Ok tt -> rest = []).
Proof.
  induction cs as [|c cs IH]; intros w entries Hw He Hcs.
  - exists [], []. simpl. auto.
  - inversion Hcs as [|? ? Hc Hcs']; subst.
    pose proof (screening_protocol_ledger E s c monomers_dict w entries Hw He)
      as Hstep.
    rewrite run_each_cons.
    destruct (screening_protocol E s c monomers_dict w) as [[[]|e] w1] eqn:Hrun;
      simpl in Hstep.
    + destruct (IH w1 (record entries c) Hstep (record_tokens _ _ He Hc) Hcs')
        as (done & rest & -> & Ht & Hr).
      exists (c :: done), rest. split; [reflexivity|]. split; assumption.
    + exists [c], cs. split; [reflexivity|]. split; [exact Hstep|].
      simpl. discriminate.
Qed.

(* ================================================================== *)
(** ** The catalog and what is enumerated from it *)

Lemma str_in_true (x : string) (l : list string) : str_in x l = true <-> In x l.
Proof.
  unfold str_in. destruct (in_dec string_dec x l); split; intros;
    try assumption; try reflexivity; try discriminate; contradiction.
Qed.

Lemma str_in_cons (x y : string) (l : list string) :
  str_in x (y :: l) = String.eqb x y || str_in x l.
Proof.
  apply Bool.eq_iff_eq_true.
  rewrite orb_true_iff, !str_in_true, String.eqb_eq. simpl.
  split; intros [H|H]; auto.
Qed.

Lemma dict_keys_set (k v : string) (d : pydict) :
  dict_keys (dict_set k v d)
  = if str_in k (dict_keys d) then dict_keys d else dict_keys d ++ [k].
Proof.
  induction d as [|[k' v'] d IH]; [reflexivity|].
  cbn [dict_set dict_keys map fst]. rewrite str_in_cons.
  destruct (String.eqb k k'); cbn [orb dict_keys map fst]; [reflexivity|].
  fold (dict_keys (dict_set k v d)). fold (dict_keys d). rewrite IH.
  destruct (str_in k (dict_keys d)); reflexivity.
Qed.

(** The keys of a dict are pairwise distinct. *)
Lemma dict_set_NoDup (k v : string) (d : pydict) :
  NoDup (dict_keys d) -> NoDup (dict_keys (dict_set k v d)).
Proof.
  intros H. rewrite dict_keys_set.
  destruct (str_in k (dict_keys d)) eqn:Hin; [assumption|].
  assert (Hnin : ~ In k (dict_keys d)).
  { intros Hk. apply str_in_true in Hk. congruence. }
  apply NoDup_app; [assumption | constructor; [intros [] | constructor] |].
  intros x Hx [<-|[]]. contradiction.
Qed.

Lemma fill_dict_keys (P : string -> Prop) (monomers : list (list string)) :
  forall d d',
    fill_dict monomers d = Ok d' ->
    Forall (Forall P) monomers ->
    NoDup (dict_keys d) /\ Forall P (dict_keys d) ->
    NoDup (dict_keys d') /\ Forall P (dict_keys d').
Proof.
  induction monomers as [|line monomers IH]; intros d d' Hfill Hm [Hnd HP].
  - simpl in Hfill. injection Hfill as <-. now split.
  - inversion Hm as [|? ? Hline Hm']; subst.
    destruct line as [|id [|smiles [|x line]]]; try discriminate.
    simpl in Hfill. apply (IH _ _ Hfill Hm'). split.
    + now apply dict_set_NoDup.
    + rewrite dict_keys_set. destruct (str_in id (dict_keys d)); [assumption|].
      apply Forall_app. split; [assumption|].
      inversion Hline; subst. now constructor.
Qed.

(** The catalog that [screen] reads has distinct keys, and they are tokens. *)
Lemma screen_catalog (file : string) (d : pydict) :
  fill_dict (map PyStr.split (PyStr.readlines file)) [] = Ok d ->
  NoDup (dict_keys d) /\ Forall (fun k => PyStr.is_token k = true) (dict_keys d).
Proof.
  intros H. apply (fill_dict_keys _ _ _ _ H).
  - apply Forall_map, Forall_forall. intros line _. apply PyStrFacts.split_tokens.
  - split; constructor.
Qed.

Lemma pick_in (prod : list composition) (choice : Z) (item : composition) :
  pick prod choice = Some item -> In item prod.
Proof.
  unfold pick. destruct (choice <? 0)%Z; [discriminate|]. apply nth_error_In.
Qed.

Lemma random_loop_in (prod : list composition) (k : Z) (draws : list Z) :
  forall counter item,
    In item (fst (random_loop prod k counter draws)) -> In item prod.
Proof.
  induction draws as [|choice draws IH]; intros counter item; simpl.
  - destruct (counter <? k)%Z; intros [].
  - destruct (counter <? k)%Z; [|intros []].
    destruct (pick prod choice) as [it|] eqn:Hp; [|apply IH].
    destruct (random_loop prod k (counter + 1) draws) as [items left] eqn:Hr.
    simpl. intros [<-|Hin]; [exact (pick_in _ _ _ Hp)|].
    apply (IH (counter + 1)%Z). now rewrite Hr.
Qed.

(** Whatever mode, the compositions come from the product of the keys. *)
Lemma enumerated_in_product (s : Session) (d : pydict) (k : Z) (draws : list Z)
    (cs : list composition) (exhausted : bool) :
  get_polymer_compositions s d k draws = Ok (cs, exhausted) ->
  exists prod,
    itertools_product (dict_keys d) (length_repeat s) = Ok prod
    /\ incl cs prod.
Proof.
  unfold get_polymer_compositions.
  destruct (itertools_product (dict_keys d) (length_repeat s)) as [prod|e];
    [|destruct (k =? 0)%Z; discriminate].
  intros H. exists prod. split; [reflexivity|].
  destruct (k =? 0)%Z.
  - injection H as <- _. apply incl_refl.
  - injection H as H. intros item Hin.
    apply (random_loop_in prod k draws 0%Z). now rewrite H.
Qed.

Lemma enumerated_tokens (s : Session) (d : pydict) (k : Z) (draws : list Z)
    (cs : list composition) (exhausted : bool) :
  Forall (fun key => PyStr.is_token key = true) (dict_keys d) ->
  get_polymer_compositions s d k draws = Ok (cs, exhausted) ->
  Forall tokens cs.
Proof.
  intros Hk H. apply enumerated_in_product in H as (prod & Hprod & Hincl).
  unfold itertools_product in Hprod.
  destruct (length_repeat s <? 0)%Z; [discriminate|]. injection Hprod as <-.
  apply Forall_forall. intros c Hc. apply Hincl, in_product in Hc as [_ Hc].
  unfold tokens. rewrite Forall_forall in *. intros t Ht. apply Hk, Hc, Ht.
Qed.

(* ================================================================== *)
(** ** Construction and [screen] on the work-log *)

Lemma init_ok (E : env) (name : string) (L nr nc : Z) (solvent : option string)
    (w : world) (s : Session) (w' : world) :
  __init__ E name L nr nc solvent w = (Ok s, w') ->
  temp w' = ""
  /\ events w' = events w ++ [EvMakedirs name]
  /\ makedirs_ok E name = true
  /\ session_name s = name /\ length_repeat s = L
  /\ n_repeat s = nr /\ n_confs s = nc
  /\ match solvent with
     | None => solvent_info s = []
     | Some sv => In sv (valid_solvents E) /\ solvent_info s = ["-gbsa"; sv]
     end.
Proof.
  unfold __init__, makedirs_exist_ok, makedirs_ok, bind, emit, write_temp, ret, raise.
  destruct (os_makedirs E name) as [errno|].
  - destruct (Z.eqb errno EEXIST); [|discriminate].
    destruct solvent as [sv|].
    + unfold str_in. destruct (in_dec string_dec sv (valid_solvents E)); simpl;
        [|discriminate].
      intros H. injection H as <- <-. simpl. repeat split; auto.
    + intros H. injection H as <- <-. simpl. repeat split; auto.
  - destruct solvent as [sv|].
    + unfold str_in. destruct (in_dec string_dec sv (valid_solvents E)); simpl;
        [|discriminate].
      intros H. injection H as <- <-. simpl. repeat split; auto.
    + intros H. injection H as <- <-. simpl. repeat split; auto.
Qed.

(** [screen] records a run of enumerated compositions, and nothing else. *)
Lemma screen_ledger (E : env) (s : Session) (file : string) (k : Z)
    (draws : list Z) (w : world) (entries : list composition) :
  temp w = ledger entries -> Forall tokens entries ->
  exists done,
    temp (snd (screen E s file k draws w)) = ledger (record_all entries done)
    /\ Forall tokens done.
Proof.
  intros Hw He. unfold screen. unfold bind at 1. unfold lift at 1.
  destruct (fill_dict _ []) as [d|e] eqn:Hd.
  2:{ exists []. simpl. auto. }
  apply screen_catalog in Hd as [_ Hk].
  unfold bind at 1. unfold emit at 1. unfold bind at 1. unfold lift at 1.
  destruct (get_polymer_compositions s d k draws) as [[cs ex]|e] eqn:Hg.
  2:{ exists []. simpl. auto. }
  pose proof (enumerated_tokens _ _ _ _ _ _ Hk Hg) as Hcs.
  unfold bind.
  destruct (run_each_ledger E s d cs
              (mkWorld (temp w) (events w ++ [EvWriteFile
                 (session_name s ++ "/" ++ "screening-output")%string
                 (output_header E)])) entries Hw He Hcs)
    as (done & rest & Heq & Ht & _).
  exists done. split.
  - destruct (run_each E s d cs _) as [[[]|e] w2]; simpl in *; exact Ht.
  - subst cs. now apply Forall_app in Hcs as [Hdone _].
Qed.

(* ================================================================== *)
(** ** The trace of one dispatch *)

Section Dispatch.
Variable E : env.
Variable s : Session.
Variable permutation : composition.
Variable monomers_dict : pydict.

Let wd : string := working_dir s permutation.
Let name : string := PyStr.join "-" permutation.

Let guarded : M unit := guarded_pipeline E s permutation monomers_dict.

Ltac run_guarded :=
  unfold guarded, guarded_pipeline, try_except, pipeline, call_stage,
    property_log, error_log, remove_junk, bind, emit, lift; fold wd; fold name;
  simpl.

(** When a stage raises, the later stages are not called and the handler
    logs the error and removes the junk. *)
Lemma guarded_raises (st : stage) (e : exn) (w : world) :
  raises_at E s permutation monomers_dict st e ->
  guarded w
  = (Ok tt,
     mkWorld (temp w)
       (events w ++ map (fun st' => EvStage st' wd) (stages_upto st)
        ++ [EvErrorLog wd permutation monomers_dict e; EvRemoveJunk wd])).
Proof.
  intros H. destruct w as [t evs].
  inversion H as [e' H1 | p r e' H1 H2 | p r c e' H1 H2 H3
                 | p r c o e' H1 H2 H3 H4 | p r c o q e' H1 H2 H3 H4 H5];
    subst; fold name in H1; run_guarded; rewrite H1; simpl.
  - now rewrite <- !app_assoc.
  - rewrite H2. simpl. now rewrite <- !app_assoc.
  - rewrite H2. destruct c. simpl. rewrite H3. simpl. now rewrite <- !app_assoc.
  - rewrite H2. destruct c. simpl. rewrite H3. destruct o. simpl.
    rewrite H4. simpl. now rewrite <- !app_assoc.
  - rewrite H2. destruct c. simpl. rewrite H3. destruct o. simpl.
    rewrite H4. destruct q. simpl. rewrite H5. simpl. now rewrite <- !app_assoc.
Qed.

(** On every path the block returns, and its last act is the junk removal. *)
Lemma guarded_any (w : world) :
  exists body,
    guarded w = (Ok tt, mkWorld (temp w) (events w ++ body ++ [EvRemoveJunk wd]))
    /\ junk_removals body = [].
Proof.
  destruct w as [t evs]. run_guarded.
  destruct (generate_polymer E s permutation monomers_dict name) as [[p r]|e1].
  2:{ eexists [_; _]. simpl. rewrite <- !app_assoc. split; reflexivity. }
  simpl. destruct (conformer_search E s p) as [[c1 c2]|e2].
  2:{ eexists [_; _; _]. simpl. rewrite <- !app_assoc. split; reflexivity. }
  simpl. destruct (xtb_opt E s p) as [[o1 o2]|e3].
  2:{ eexists [_; _; _; _]. simpl. rewrite <- !app_assoc. split; reflexivity. }
  simpl. destruct (xtb_calc_potentials E s p) as [[q1 q2]|e4].
  2:{ eexists [_; _; _; _; _]. simpl. rewrite <- !app_assoc. split; reflexivity. }
  simpl. destruct (stda_calc_excitation E s p) as [[g1 g2]|e5].
  2:{ eexists [_; _; _; _; _; _]. simpl. rewrite <- !app_assoc. split; reflexivity. }
  simpl. eexists [_; _; _; _; _; _]. simpl. rewrite <- !app_assoc.
  split; reflexivity.
Qed.

(** A composition that is not handled is recorded, and when its directory
    can be made the guarded block runs inside it. *)
Lemma dispatch_runs (screened : list composition) (w : world) :
  handled permutation screened = false ->
  makedirs_ok E wd = true ->
  dispatch_unless_screened E s permutation monomers_dict screened w
  = let (r, w1) :=
      guarded (mkWorld (temp w ++ log_line permutation)
                 (events w ++ [EvMakedirs wd; EvEnter wd])) in
    (r, mkWorld (temp w1) (events w1 ++ [EvLeave wd])).
Proof.
  intros Hh Hm. unfold dispatch_unless_screened, handled in *.
  apply orb_false_iff in Hh as [-> ->]. cbn [negb andb].
  unfold guarded, guarded_pipeline, makedirs_ok, wd, working_dir in *.
  set (p := (session_name s ++ "/" ++ PyStr.join "-" permutation)%string) in *.
  unfold makedirs_exist_ok, with_cd, bind at 1 2 3 4, append_temp, emit.
  destruct (os_makedirs E p) as [errno|].
  - rewrite Hm. unfold ret. cbn [temp events]. now rewrite <- !app_assoc.
  - unfold ret. cbn [temp events]. now rewrite <- !app_assoc.
Qed.

(** A handled composition is skipped: nothing happens. *)
Lemma dispatch_skips (screened : list composition) (w : world) :
  handled permutation screened = true ->
  dispatch_unless_screened E s permutation monomers_dict screened w = (Ok tt, w).
Proof.
  intros Hh. unfold dispatch_unless_screened, handled in *.
  destruct (tuple_in permutation screened); simpl in *; [reflexivity|].
  rewrite Hh. reflexivity.
Qed.

End Dispatch.

(* ================================================================== *)
(** ** Failure of one composition *)

Lemma screening_protocol_unfold (E : env) (s : Session) (c : composition)
    (d : pydict) (w : world) :
  screening_protocol E s c d w
  = dispatch_unless_screened E s c d (parse_log (temp w)) w.
Proof. reflexivity. Qed.

(** C5: when the pipeline of a dispatched composition raises at a stage,
    the stages after it are not called, the error log receives the
    composition with the causing error once, no Property Record is logged,
    and the call returns normally, so that the run goes on with the
    compositions that follow. *)
Theorem stage_failure_is_isolated (E : env) (s : Session)
    (permutation : composition) (monomers_dict : pydict)
    (rest : list composition) (st : stage) (e : exn) (w : world) :
  handled permutation (parse_log (temp w)) = false ->
  makedirs_ok E (working_dir s permutation) = true ->
  raises_at E s permutation monomers_dict st e ->
  exists new w',
    screening_protocol E s permutation monomers_dict w = (Ok tt, w')
    /\ events w' = events w ++ new
    /\ stages_run new = stages_upto st
    /\ (forall st', (stage_no st < stage_no st')%nat -> ~ In st' (stages_run new))
    /\ error_entries new = [(permutation, e)]
    /\ property_records new = []
    /\ run_each E s monomers_dict (permutation :: rest) w
       = run_each E s monomers_dict rest w'.
Proof.
  intros Hh Hm Hr.
  pose proof (dispatch_runs E s permutation monomers_dict _ w Hh Hm) as Hd.
  rewrite (guarded_raises E s permutation monomers_dict st e _ Hr) in Hd.
  cbn [temp events] in Hd. rewrite <- !app_assoc in Hd.
  eexists. eexists. split; [rewrite screening_protocol_unfold; exact Hd|].
  split; [reflexivity|].
  assert (Hrun : stages_run
            ([EvMakedirs (working_dir s permutation);
              EvEnter (working_dir s permutation)]
             ++ map (fun st' => EvStage st' (working_dir s permutation))
                  (stages_upto st)
             ++ [EvErrorLog (working_dir s permutation) permutation
                   monomers_dict e;
                 EvRemoveJunk (working_dir s permutation)]
             ++ [EvLeave (working_dir s permutation)])
          = stages_upto st) by (destruct st; reflexivity).
  split; [exact Hrun|]. split.
  { rewrite Hrun. intros st' Hlt Hin.
    destruct st, st'; simpl in Hlt, Hin; try lia;
      repeat (destruct Hin as [Hin|Hin]; [discriminate|]); contradiction. }
  split; [destruct st; reflexivity|].
  split; [destruct st; reflexivity|].
  rewrite run_each_cons, screening_protocol_unfold, Hd. reflexivity.
Qed.

Lemma stage_failure_is_isolated_witness :
  handled ["B"; "B"] (parse_log (temp empty_world)) = false
  /\ makedirs_ok demo_env (working_dir demo_session ["B"; "B"]) = true
  /\ raises_at demo_env demo_session ["B"; "B"] AB_catalog XtbOpt
       (StageFailure "xtb")
  /\ exists new w',
       screening_protocol demo_env demo_session ["B"; "B"] AB_catalog empty_world
       = (Ok tt, w')
       /\ events w' = events empty_world ++ new
       /\ stages_run new = stages_upto XtbOpt
       /\ (forall st', (stage_no XtbOpt < stage_no st')%nat ->
             ~ In st' (stages_run new))
       /\ error_entries new = [(["B"; "B"], StageFailure "xtb")]
       /\ property_records new = []
       /\ run_each demo_env demo_session AB_catalog [["B"; "B"]; ["A"; "B"]]
            empty_world
          = run_each demo_env demo_session AB_catalog [["A"; "B"]] w'.
Proof.
  assert (H1 : handled ["B"; "B"] (parse_log (temp empty_world)) = false)
    by reflexivity.
  assert (H2 : makedirs_ok demo_env (working_dir demo_session ["B"; "B"]) = true)
    by reflexivity.
  assert (H3 : raises_at demo_env demo_session ["B"; "B"] AB_catalog XtbOpt
                 (StageFailure "xtb")).
  { eapply raises_opt; reflexivity. }
  split; [exact H1|]. split; [exact H2|]. split; [exact H3|].
  exact (stage_failure_is_isolated demo_env demo_session ["B"; "B"] AB_catalog
           [["A"; "B"]] XtbOpt (StageFailure "xtb") empty_world H1 H2 H3).
Defined.

(* ================================================================== *)
(** ** Junk removal *)

(** C8: a composition that is not handled yet, and whose Working Directory
    can be made, has the junk removal called as the last act inside its
    Working Directory, once, whatever the stages return or raise; then the
    call returns. *)
Theorem junk_removed_on_every_path (E : env) (s : Session)
    (permutation : composition) (monomers_dict : pydict) (w : world) :
  handled permutation (parse_log (temp w)) = false ->
  makedirs_ok E (working_dir s permutation) = true ->
  exists body w',
    screening_protocol E s permutation monomers_dict w = (Ok tt, w')
    /\ events w'
       = events w
         ++ [EvMakedirs (working_dir s permutation);
             EvEnter (working_dir s permutation)]
         ++ body
         ++ [EvRemoveJunk (working_dir s permutation);
             EvLeave (working_dir s permutation)]
    /\ junk_removals body = [].
Proof.
  intros Hh Hm.
  pose proof (dispatch_runs E s permutation monomers_dict _ w Hh Hm) as Hd.
  destruct (guarded_any E s permutation monomers_dict
              (mkWorld (temp w ++ log_line permutation)
                 (events w ++ [EvMakedirs (working_dir s permutation);
                               EvEnter (working_dir s permutation)])))
    as (body & Hg & Hj).
  rewrite Hg in Hd. cbn [temp events] in Hd.
  exists body. eexists. split; [rewrite screening_protocol_unfold; exact Hd|].
  split; [|exact Hj]. cbn [events]. now rewrite <- !app_assoc.
Qed.

Lemma junk_removed_on_every_path_witness :
  handled ["A"; "B"] (parse_log (temp empty_world)) = false
  /\ makedirs_ok demo_env (working_dir demo_session ["A"; "B"]) = true
  /\ exists body w',
       screening_protocol demo_env demo_session ["A"; "B"] AB_catalog empty_world
       = (Ok tt, w')
       /\ events w'
          = events empty_world
            ++ [EvMakedirs (working_dir demo_session ["A"; "B"]);
                EvEnter (working_dir demo_session ["A"; "B"])]
            ++ body
            ++ [EvRemoveJunk (working_dir demo_session ["A"; "B"]);
                EvLeave (working_dir demo_session ["A"; "B"])]
       /\ junk_removals body = [].
Proof.
  assert (H1 : handled ["A"; "B"] (parse_log (temp empty_world)) = false)
    by reflexivity.
  assert (H2 : makedirs_ok demo_env (working_dir demo_session ["A"; "B"]) = true)
    by reflexivity.
  split; [exact H1|]. split; [exact H2|].
  exact (junk_removed_on_every_path demo_env demo_session ["A"; "B"] AB_catalog
           empty_world H1 H2).
Defined.

(* ================================================================== *)
(** ** The work-log over a session *)

Lemma screening_protocol_grows (E : env) (s : Session) (c : composition)
    (d : pydict) (w : world) :
  exists suffix,
    temp (snd (screening_protocol E s c d w)) = (temp w ++ suffix)%string
    /\ (suffix = "" \/ suffix = log_line c).
Proof.
  rewrite screening_protocol_temp.
  destruct (handled c (parse_log (temp w))).
  - exists "". split; [now rewrite PyStrFacts.append_nil_r | now left].
  - exists (log_line c). split; [reflexivity | now right].
Qed.

Lemma run_each_grows (E : env) (s : Session) (d : pydict) (cs : list composition) :
  forall w, exists suffix,
    temp (snd (run_each E s d cs w)) = (temp w ++ suffix)%string.
Proof.
  induction cs as [|c cs IH]; intros w.
  - exists "". simpl. now rewrite PyStrFacts.append_nil_r.
  - rewrite run_each_cons.
    destruct (screening_protocol_grows E s c d w) as (s1 & H1 & _).
    destruct (screening_protocol E s c d w) as [[[]|e] w1]; simpl in H1.
    + destruct (IH w1) as (s2 & H2). exists (s1 ++ s2)%string.
      now rewrite H2, H1, PyStrFacts.append_assoc.
    + now exists s1.
Qed.

Lemma screen_grows (E : env) (s : Session) (file : string) (k : Z)
    (draws : list Z) (w : world) :
  exists suffix,
    temp (snd (screen E s file k draws w)) = (temp w ++ suffix)%string.
Proof.
  unfold screen. unfold bind at 1. unfold lift at 1.
  destruct (fill_dict _ []) as [d|e].
  2:{ exists "". simpl. now rewrite PyStrFacts.append_nil_r. }
  unfold bind at 1. unfold emit at 1. unfold bind at 1. unfold lift at 1.
  destruct (get_polymer_compositions s d k draws) as [[cs ex]|e].
  2:{ exists "". simpl. now rewrite PyStrFacts.append_nil_r. }
  unfold bind.
  destruct (run_each_grows E s d cs
              (mkWorld (temp w) (events w ++ [EvWriteFile
                 (session_name s ++ "/" ++ "screening-output")%string
                 (output_header E)]))) as (suffix & H).
  exists suffix.
  destruct (run_each E s d cs _) as [[[]|e] w2]; simpl in *; exact H.
Qed.

Lemma ledger_nil : ledger [] = "".
Proof. reflexivity. Qed.

(** C9: a constructed session starts from an empty work-log, whatever the
    file held before; afterwards a call of [screening_protocol] appends at
    most the line of its composition, and [screen] only appends: after it
    the entries are compositions recorded in this session. *)
Theorem construction_empties_worklog (E : env) (name : string) (L nr nc : Z)
    (solvent : option string) (w0 : world) (s : Session) (w1 : world) :
  __init__ E name L nr nc solvent w0 = (Ok s, w1) ->
  temp w1 = ""
  /\ parse_log (temp w1) = []
  /\ (forall c d w, exists suffix,
        temp (snd (screening_protocol E s c d w)) = (temp w ++ suffix)%string
        /\ (suffix = "" \/ suffix = log_line c))
  /\ (forall file k draws w, exists suffix,
        temp (snd (screen E s file k draws w)) = (temp w ++ suffix)%string)
  /\ (forall file k draws, exists done,
        Forall tokens done
        /\ parse_log (temp (snd (screen E s file k draws w1)))
           = record_all [] done).
Proof.
  intros H. apply init_ok in H as (Ht & _).
  split; [exact Ht|]. split; [now rewrite Ht|].
  split; [intros; apply screening_protocol_grows|].
  split; [intros; apply screen_grows|].
  intros file k draws.
  destruct (screen_ledger E s file k draws w1 [] Ht (Forall_nil _))
    as (done & Hs & Hd).
  exists done. split; [exact Hd|]. rewrite Hs. apply parse_ledger.
  apply record_all_tokens; [constructor | exact Hd].
Qed.

Lemma construction_empties_worklog_witness :
  __init__ demo_env "run" 2 2 10 None used_world
  = (Ok demo_session, mkWorld "" [EvMakedirs "run"])
  /\ temp (mkWorld "" [EvMakedirs "run"]) = ""
  /\ parse_log (temp (mkWorld "" [EvMakedirs "run"])) = [].
Proof.
  assert (H : __init__ demo_env "run" 2 2 10 None used_world
              = (Ok demo_session, mkWorld "" [EvMakedirs "run"])) by reflexivity.
  split; [exact H|].
  destruct (construction_empties_worklog demo_env "run" 2 2 10 None used_world
              demo_session (mkWorld "" [EvMakedirs "run"]) H) as (H1 & H2 & _).
  split; [exact H1 | exact H2].
Defined.

(* ================================================================== *)
(** ** The solvent *)

Lemma str_in_false (x : string) (l : list string) : str_in x l = false <-> ~ In x l.
Proof.
  rewrite <- str_in_true. destruct (str_in x l); split; intros H;
    try discriminate; try reflexivity; try (intros H'; discriminate).
  now elim H.
Qed.

(** What construction does once the session directory exists. *)
Lemma init_after_makedirs (E : env) (name : string) (L nr nc : Z)
    (solvent : option string) (w : world) :
  makedirs_ok E name = true ->
  __init__ E name L nr nc solvent w
  = match solvent with
    | None =>
        (Ok (mkSession name L nr nc []), mkWorld "" (events w ++ [EvMakedirs name]))
    | Some sv =>
        if str_in sv (valid_solvents E)
        then (Ok (mkSession name L nr nc ["-gbsa"; sv]),
              mkWorld "" (events w ++ [EvMakedirs name]))
        else (Raise (PyException "Invalid solvent choice. Valid solvents:"
                       (valid_solvents E)),
              mkWorld (temp w) (events w ++ [EvMakedirs name]))
    end.
Proof.
  intros Hm. unfold makedirs_ok in Hm.
  unfold __init__, makedirs_exist_ok, bind, emit, write_temp, ret, raise.
  destruct (os_makedirs E name) as [errno|]; [rewrite Hm|];
    (destruct solvent as [sv|]; [destruct (str_in sv (valid_solvents E))|]);
    reflexivity.
Qed.

(** C7: once the session directory exists, a solvent outside the allow-list
    makes construction raise the error that lists the valid solvents, with
    the work-log untouched and no stage called; a solvent of the allow-list,
    or none, gives a session whose solvent flags are set from it. *)
Theorem solvent_checked_at_construction (E : env) (name : string) (L nr nc : Z)
    (solvent : option string) (w : world) :
  makedirs_ok E name = true ->
  (forall sv, solvent = Some sv -> ~ In sv (valid_solvents E) ->
     exists w',
       __init__ E name L nr nc solvent w
       = (Raise (PyException "Invalid solvent choice. Valid solvents:"
                   (valid_solvents E)), w')
       /\ temp w' = temp w
       /\ events w' = events w ++ [EvMakedirs name])
  /\ (solvent = None \/ (exists sv, solvent = Some sv /\ In sv (valid_solvents E)) ->
      exists s w',
        __init__ E name L nr nc solvent w = (Ok s, w')
        /\ solvent_info s
           = match solvent with
             | None => []
             | Some sv => ["-gbsa"; sv]
             end
        /\ events w' = events w ++ [EvMakedirs name]).
Proof.
  intros Hm. rewrite (init_after_makedirs E name L nr nc solvent w Hm). split.
  - intros sv -> Hnot. apply str_in_false in Hnot. rewrite Hnot.
    eexists. repeat split.
  - intros [->|(sv & -> & Hin)].
    + eexists. eexists. repeat split.
    + apply str_in_true in Hin. rewrite Hin. eexists. eexists. repeat split.
Qed.

Lemma solvent_checked_at_construction_witness :
  makedirs_ok demo_env "run" = true
  /\ (exists w',
        __init__ demo_env "run" 2 2 10 (Some "vacuum") empty_world
        = (Raise (PyException "Invalid solvent choice. Valid solvents:"
                    (valid_solvents demo_env)), w')
        /\ temp w' = temp empty_world
        /\ events w' = events empty_world ++ [EvMakedirs "run"]).
Proof.
  assert (Hm : makedirs_ok demo_env "run" = true) by reflexivity.
  split; [exact Hm|].
  refine (proj1 (solvent_checked_at_construction demo_env "run" 2 2 10
                   (Some "vacuum") empty_world Hm) "vacuum" eq_refl _).
  vm_compute. intros [H|[H|[]]]; discriminate.
Defined.

(* ================================================================== *)
(** ** Symmetry deduplication *)

(** The work-log of a session: lines of entries that are tokens, no entry
    twice and no entry with its reverse. *)
Lemma after_screens_ledger (E : env) (s : Session)
    (calls : list (string * Z * list Z)) :
  forall (w : world) (entries : list composition),
    temp w = ledger entries -> Forall tokens entries -> sym_distinct entries ->
    exists entries',
      temp (after_screens E s calls w) = ledger entries'
      /\ Forall tokens entries' /\ sym_distinct entries'.
Proof.
  induction calls as [|[[file k] draws] calls IH]; intros w entries Hw Ht Hs.
  - exists entries. simpl. auto.
  - simpl.
    destruct (screen_ledger E s file k draws w entries Hw Ht) as (done & Hl & Hd).
    apply (IH _ (record_all entries done) Hl).
    + now apply record_all_tokens.
    + now apply record_all_sym_distinct.
Qed.

(** C1 (amended): in a session whose calls of [screening_protocol] run one
    after the other, whatever calls of [screen] are made, in either mode,
    the work-log never holds an entry twice, nor an entry together with its
    reverse. *)
Theorem symmetry_dedup_one_worker (E : env) (name : string) (L nr nc : Z)
    (solvent : option string) (calls : list (string * Z * list Z))
    (w0 : world) (s : Session) (w1 : world) :
  __init__ E name L nr nc solvent w0 = (Ok s, w1) ->
  sym_distinct (parse_log (temp (after_screens E s calls w1))).
Proof.
  intros H. apply init_ok in H as (Ht & _).
  destruct (after_screens_ledger E s calls w1 [] Ht (Forall_nil _) sym_distinct_nil)
    as (entries & Hl & Htok & Hsym).
  now rewrite Hl, parse_ledger.
Qed.

Lemma symmetry_dedup_one_worker_witness :
  __init__ demo_env "run" 2 2 10 None empty_world
  = (Ok demo_session, mkWorld "" [EvMakedirs "run"])
  /\ sym_distinct
       (parse_log
          (temp (after_screens demo_env demo_session
                   [(AB_file, 0%Z, []); (AB_file, 2%Z, [1; 2]%Z)]
                   (mkWorld "" [EvMakedirs "run"])))).
Proof.
  assert (H : __init__ demo_env "run" 2 2 10 None empty_world
              = (Ok demo_session, mkWorld "" [EvMakedirs "run"])) by reflexivity.
  split; [exact H|].
  exact (symmetry_dedup_one_worker demo_env "run" 2 2 10 None
           [(AB_file, 0%Z, []); (AB_file, 2%Z, [1; 2]%Z)]
           empty_world demo_session (mkWorld "" [EvMakedirs "run"]) H).
Defined.

(** The catalog [A], [B] with repeat length 2: [B A] is skipped as the
    reverse of [A B]. *)
Lemma screen_AB_entries :
  get_polymer_compositions demo_session AB_catalog 0 []
  = Ok ([["A"; "A"]; ["A"; "B"]; ["B"; "A"]; ["B"; "B"]], true)
  /\ parse_log (temp (snd (screen demo_env demo_session AB_file 0 [] empty_world)))
     = [["A"; "A"]; ["A"; "B"]; ["B"; "B"]].
Proof. split; vm_compute; reflexivity. Qed.

Lemma step_nth_app (E : env) (s : Session) (d : pydict) (done : list task)
    (t : task) (rest : list task) (w : world) :
  step_nth E s d (List.length done) (done ++ t :: rest) w
  = (done ++ fst (task_step E s d t w) :: rest, snd (task_step E s d t w)).
Proof.
  induction done as [|t0 done IH]; simpl.
  - now destruct (task_step E s d t w).
  - now rewrite IH.
Qed.

(** A worker that makes both of its steps in a row does what
    [screening_protocol] does. *)
Lemma two_steps_are_screening_protocol (E : env) (s : Session) (d : pydict)
    (c : composition) (w : world) :
  task_step E s d (fst (task_step E s d (Queued c) w))
    (snd (task_step E s d (Queued c) w))
  = (Returned (fst (screening_protocol E s c d w)),
     snd (screening_protocol E s c d w)).
Proof.
  rewrite screening_protocol_unfold. simpl.
  now destruct (dispatch_unless_screened E s c d (parse_log (temp w)) w).
Qed.

(** One worker that takes the tasks in turn leaves the world that the run
    of calls leaves. *)
Lemma one_worker_is_run_each (E : env) (s : Session) (d : pydict)
    (cs : list composition) :
  forall (done : list task) (w : world),
    fst (run_each E s d cs w) = Ok tt ->
    run_schedule E s d (in_sequence (List.length done) (List.length cs))
      (done ++ map Queued cs) w
    = (done ++ map (fun _ => Returned (Ok tt)) cs, snd (run_each E s d cs w)).
Proof.
  induction cs as [|c cs IH]; intros done w Hok.
  - reflexivity.
  - rewrite run_each_cons in Hok |- *.
    unfold in_sequence. cbn [List.length seq flat_map app map run_schedule].
    rewrite step_nth_app.
    pose proof (two_steps_are_screening_protocol E s d c w) as Htwo.
    destruct (task_step E s d (Queued c) w) as [t1 wa] eqn:H1.
    cbn [fst snd] in *. rewrite step_nth_app, Htwo. cbn [fst snd].
    destruct (screening_protocol E s c d w) as [[[]|e] w1]; [|discriminate].
    cbn [fst snd] in *.
    specialize (IH (done ++ [Returned (Ok tt)]) w1 Hok).
    rewrite length_app, Nat.add_1_r, <- app_assoc in IH. cbn [app] in IH.
    fold (in_sequence (S (List.length done)) (List.length cs)).
    rewrite IH, <- app_assoc. reflexivity.
Qed.

(** C1, as stated, fails with two workers.  The session enumerates [A A],
    [A B], [B A], [B B]; the first worker finishes [A A], then the two
    workers read the work-log for [A B] and for [B A] before either
    appends: both are recorded and both are run. *)
Lemma symmetry_dedup_two_workers_counterexample :
  let w1 := snd (__init__ demo_env "run" 2 2 10 None empty_world) in
  let w2 :=
    snd (screen_pool demo_env demo_session AB_file 0 []
           [0; 0; 1; 2; 1; 2; 3; 3]%nat w1) in
  parse_log (temp w2) = [["A"; "A"]; ["A"; "B"]; ["B"; "A"]; ["B"; "B"]]
  /\ In (EvStage GeneratePolymer "run/A-B") (events w2)
  /\ In (EvStage GeneratePolymer "run/B-A") (events w2)
  /\ ~ sym_distinct (parse_log (temp w2)).
Proof.
  cbv zeta.
  assert (Hlog :
    parse_log
      (temp (snd (screen_pool demo_env demo_session AB_file 0 []
                    [0; 0; 1; 2; 1; 2; 3; 3]%nat
                    (snd (__init__ demo_env "run" 2 2 10 None empty_world)))))
    = [["A"; "A"]; ["A"; "B"]; ["B"; "A"]; ["B"; "B"]])
    by (vm_compute; reflexivity).
  split; [exact Hlog|].
  split; [vm_compute; tauto|]. split; [vm_compute; tauto|].
  rewrite Hlog. intros H.
  destruct (H 1%nat 2%nat ["A"; "B"] ["B"; "A"]) as [_ Hrev];
    [lia | reflexivity | reflexivity |].
  apply Hrev. reflexivity.
Qed.

(* ================================================================== *)
(** ** Palindromes *)

Lemma run_each_app (E : env) (s : Session) (d : pydict)
    (cs1 cs2 : list composition) :
  forall w,
    run_each E s d (cs1 ++ cs2) w
    = match run_each E s d cs1 w with
      | (Ok _, w1) => run_each E s d cs2 w1
      | (Raise e, w1) => (Raise e, w1)
      end.
Proof.
  induction cs1 as [|c cs1 IH]; intros w; [reflexivity|].
  rewrite <- app_comm_cons, !run_each_cons.
  destruct (screening_protocol E s c d w) as [[[]|e] w1]; [apply IH | reflexivity].
Qed.

Lemma record_in (log : list composition) (c x : composition) :
  In x (record log c) <-> In x log \/ (handled c log = false /\ x = c).
Proof.
  unfold record. destruct (handled c log).
  - split; [now left | intros [H|[H _]]; [assumption | discriminate]].
  - rewrite in_app_iff. simpl. split.
    + intros [H|[<-|[]]]; [now left | now right].
    + intros [H|[_ ->]]; [now left | right; now left].
Qed.

Lemma record_all_in (cs : list composition) :
  forall log x, In x (record_all log cs) -> In x log \/ In x cs.
Proof.
  induction cs as [|c cs IH]; intros log x H; [now left|].
  simpl in H. apply IH in H as [H|H]; [|right; now right].
  apply record_in in H as [H|[_ ->]]; [now left | right; now left].
Qed.

Lemma record_all_keeps (cs : list composition) :
  forall log x, In x log -> In x (record_all log cs).
Proof.
  induction cs as [|c cs IH]; intros log x H; [assumption|].
  simpl. apply IH, record_in. now left.
Qed.

Lemma sym_distinct_NoDup (log : list composition) : sym_distinct log -> NoDup log.
Proof.
  intros H. apply (proj2 (NoDup_nth_error log)). intros i j Hi Heq.
  destruct (Nat.lt_trichotomy i j) as [Hlt|[Heq'|Hgt]]; [|assumption|].
  - exfalso. apply nth_error_Some in Hi.
    destruct (nth_error log i) as [c|] eqn:Hc; [|congruence].
    symmetry in Heq. destruct (H i j c c Hlt Hc Heq) as [Hne _]. now apply Hne.
  - exfalso. destruct (nth_error log i) as [c|] eqn:Hc.
    + symmetry in Heq. destruct (H j i c c Hgt Heq Hc) as [Hne _]. now apply Hne.
    + apply nth_error_Some in Hi. congruence.
Qed.

(** A call that raises leaves by [os.makedirs]; a call that returns on a
    composition not handled before had its directory made. *)
Lemma dispatch_returns_makedirs (E : env) (s : Session) (c : composition)
    (d : pydict) (screened : list composition) (w : world) :
  handled c screened = false ->
  fst (dispatch_unless_screened E s c d screened w) = Ok tt ->
  makedirs_ok E (working_dir s c) = true.
Proof.
  intros Hh. unfold dispatch_unless_screened, handled in *.
  apply orb_false_iff in Hh as [-> ->]. cbn [negb andb].
  unfold makedirs_ok, working_dir.
  set (p := (session_name s ++ "/" ++ PyStr.join "-" c)%string).
  unfold makedirs_exist_ok, bind at 1 2 3, append_temp, emit.
  destruct (os_makedirs E p) as [errno|]; [|reflexivity].
  destruct (Z.eqb errno EEXIST); [reflexivity|].
  unfold raise. simpl. discriminate.
Qed.

(** C10 (amended): in a run of calls made one after the other from an empty
    work-log, a palindromic composition is not taken for handled when it is
    first met: it is recorded and its pipeline runs; every later call finds
    it handled and does nothing; the work-log holds it once. *)
Theorem palindrome_dispatched_once (E : env) (s : Session) (d : pydict)
    (before after : list composition) (c : composition) (w0 : world) :
  temp w0 = "" ->
  Forall tokens (before ++ c :: after) ->
  rev c = c ->
  ~ In c before ->
  fst (run_each E s d (before ++ c :: after) w0) = Ok tt ->
  let w1 := snd (run_each E s d before w0) in
  let w2 := snd (screening_protocol E s c d w1) in
  let w3 := snd (run_each E s d after w2) in
  handled c (parse_log (temp w1)) = false
  /\ temp w2 = (temp w1 ++ log_line c)%string
  /\ (exists body,
        events w2
        = events w1
          ++ [EvMakedirs (working_dir s c); EvEnter (working_dir s c)]
          ++ body
          ++ [EvRemoveJunk (working_dir s c); EvLeave (working_dir s c)])
  /\ snd (run_each E s d (before ++ c :: after) w0) = w3
  /\ occurrences c (parse_log (temp w3)) = 1%nat
  /\ (forall w, In c (parse_log (temp w)) ->
        screening_protocol E s c d w = (Ok tt, w)).
Proof.
  intros Ht Htok Hpal Hnew Hok. cbv zeta.
  apply Forall_app in Htok as [Hbefore Hrest].
  inversion Hrest as [|? ? Hc Hafter]; subst.
  rewrite run_each_app in Hok |- *.
  destruct (run_each_ledger E s d before w0 [] Ht (Forall_nil _) Hbefore)
    as (done & rest & Hsplit & Hlog1 & Hdone).
  destruct (run_each E s d before w0) as [[[]|e1] w1] eqn:Hrun1;
    [|discriminate].
  cbn [fst snd] in *. rewrite (Hdone eq_refl), app_nil_r in Hsplit. subst done.
  assert (Htok1 : Forall tokens (record_all [] before))
    by (apply record_all_tokens; [constructor | assumption]).
  assert (Hparse1 : parse_log (temp w1) = record_all [] before)
    by (rewrite Hlog1; now apply parse_ledger).
  assert (Hh : handled c (parse_log (temp w1)) = false).
  { rewrite Hparse1. apply handled_false. rewrite Hpal.
    assert (Hn : ~ In c (record_all [] before)).
    { intros Hin. apply record_all_in in Hin as [[]|Hin]. contradiction. }
    now split. }
  rewrite run_each_cons in Hok |- *.
  pose proof (screening_protocol_ledger E s c d w1 _ Hlog1 Htok1) as Hlog2.
  pose proof (screening_protocol_temp E s c d w1) as Htemp2.
  rewrite Hh in Htemp2.
  destruct (screening_protocol E s c d w1) as [[[]|e2] w2] eqn:Hrun2;
    [|discriminate].
  cbn [fst snd] in *.
  assert (Hm : makedirs_ok E (working_dir s c) = true).
  { apply (dispatch_returns_makedirs E s c d (parse_log (temp w1)) w1 Hh).
    rewrite <- screening_protocol_unfold, Hrun2. reflexivity. }
  split; [exact Hh|]. split; [exact Htemp2|]. split.
  { pose proof (dispatch_runs E s c d _ w1 Hh Hm) as Hd.
    destruct (guarded_any E s c d
                (mkWorld (temp w1 ++ log_line c)
                   (events w1 ++ [EvMakedirs (working_dir s c);
                                  EvEnter (working_dir s c)])))
      as (body & Hg & _).
    rewrite Hg in Hd. rewrite <- screening_protocol_unfold, Hrun2 in Hd.
    injection Hd as ->. exists body. cbn [events]. now rewrite <- !app_assoc. }
  split; [reflexivity|]. split.
  - assert (Htok2 : Forall tokens (record (record_all [] before) c))
      by (now apply record_tokens).
    destruct (run_each_ledger E s d after w2 _ Hlog2 Htok2 Hafter)
      as (done3 & rest3 & Hsplit3 & Hlog3 & _).
    rewrite Hlog3. rewrite parse_ledger
      by (apply record_all_tokens; [assumption|];
          rewrite Hsplit3 in Hafter; now apply Forall_app in Hafter as [? _]).
    unfold occurrences. apply Nat.le_antisymm.
    + apply NoDup_count_occ, sym_distinct_NoDup, record_all_sym_distinct,
        record_sym_distinct, record_all_sym_distinct, sym_distinct_nil.
    + apply count_occ_In, record_all_keeps, record_in. right.
      split; [|reflexivity]. now rewrite <- Hparse1.
  - intros w Hin. rewrite screening_protocol_unfold. apply dispatch_skips.
    unfold handled. apply tuple_in_true in Hin. now rewrite Hin.
Qed.

Lemma palindrome_dispatched_once_witness :
  temp empty_world = ""
  /\ Forall tokens ([["A"; "B"]] ++ ["A"; "A"] :: [["A"; "A"]])
  /\ rev ["A"; "A"] = ["A"; "A"]
  /\ ~ In ["A"; "A"] [["A"; "B"]]
  /\ fst (run_each demo_env demo_session AB_catalog
            ([["A"; "B"]] ++ ["A"; "A"] :: [["A"; "A"]]) empty_world) = Ok tt
  /\ occurrences ["A"; "A"]
       (parse_log
          (temp (snd (run_each demo_env demo_session AB_catalog [["A"; "A"]]
             (snd (screening_protocol demo_env demo_session ["A"; "A"] AB_catalog
                (snd (run_each demo_env demo_session AB_catalog [["A"; "B"]]
                        empty_world)))))))) = 1%nat.
Proof.
  assert (H1 : temp empty_world = "") by reflexivity.
  assert (H2 : Forall tokens ([["A"; "B"]] ++ ["A"; "A"] :: [["A"; "A"]])).
  { repeat constructor. }
  assert (H3 : rev ["A"; "A"] = ["A"; "A"]) by reflexivity.
  assert (H4 : ~ In ["A"; "A"] [["A"; "B"]]).
  { intros [H|[]]. discriminate. }
  assert (H5 : fst (run_each demo_env demo_session AB_catalog
            ([["A"; "B"]] ++ ["A"; "A"] :: [["A"; "A"]]) empty_world) = Ok tt)
    by (vm_compute; reflexivity).
  split; [exact H1|]. split; [exact H2|]. split; [exact H3|].
  split; [exact H4|]. split; [exact H5|].
  exact (proj1 (proj2 (proj2 (proj2 (proj2
    (palindrome_dispatched_once demo_env demo_session AB_catalog
       [["A"; "B"]] [["A"; "A"]] ["A"; "A"] empty_world H1 H2 H3 H4 H5)))))).
Defined.

(* ================================================================== *)
(** ** Order of the exhaustive enumeration *)

Lemma product_step_map {A B : Type} (f : A -> B) (pool : list A)
    (result : list (list A)) :
  product_step (map f pool) (map (map f) result)
  = map (map f) (product_step pool result).
Proof.
  unfold product_step. induction result as [|x result IH]; [reflexivity|].
  simpl. rewrite map_app, IH. f_equal.
  rewrite !map_map. apply map_ext. intros y. now rewrite map_app.
Qed.

(** The product of the images is the image of the product. *)
Lemma product_map {A B : Type} (f : A -> B) (pool : list A) (n : nat) :
  product (map f pool) n = map (map f) (product pool n).
Proof.
  induction n as [|n IH]; [reflexivity|].
  now rewrite !product_succ, IH, product_step_map.
Qed.

Lemma StronglySorted_app {A : Type} (R : A -> A -> Prop) (l1 l2 : list A) :
  StronglySorted R l1 -> StronglySorted R l2 ->
  (forall a b, In a l1 -> In b l2 -> R a b) ->
  StronglySorted R (l1 ++ l2).
Proof.
  intros H1 H2 H12. induction H1 as [|a l1 Hs IH Ha]; [assumption|].
  simpl. constructor.
  - apply IH. intros x y Hx Hy. apply H12; [now right | assumption].
  - apply Forall_app. split; [assumption|].
    apply Forall_forall. intros b Hb. apply H12; [now left | assumption].
Qed.

Lemma lex_lt_app_same (x a b : list nat) : lex_lt a b -> lex_lt (x ++ a) (x ++ b).
Proof. induction x as [|y x IH]; intros H; [assumption|]. right. auto. Qed.

Lemma lex_lt_app_diff (x x' a b : list nat) :
  List.length x = List.length x' -> lex_lt x x' -> lex_lt (x ++ a) (x' ++ b).
Proof.
  revert x'. induction x as [|y x IH]; intros [|y' x'] Hlen H;
    try discriminate; simpl in H; [contradiction|].
  simpl. destruct H as [Hlt|[-> H]]; [now left|].
  right. split; [reflexivity|]. apply IH; [|assumption].
  simpl in Hlen. lia.
Qed.

Lemma product_step_sorted (pool : list nat) (result : list (list nat)) (n : nat) :
  StronglySorted lt pool ->
  StronglySorted lex_lt result ->
  Forall (fun x => List.length x = n) result ->
  StronglySorted lex_lt (product_step pool result).
Proof.
  intros Hp Hr Hn. unfold product_step.
  induction Hr as [|x result Hs IH Hx]; [constructor|].
  inversion Hn as [|? ? Hlx Hn']; subst. simpl.
  apply StronglySorted_app.
  - clear -Hp. induction Hp as [|y pool Hs IH Hy]; [constructor|].
    simpl. constructor; [assumption|].
    apply Forall_map. eapply Forall_impl; [|exact Hy].
    intros z Hz. apply lex_lt_app_same. simpl. now left.
  - now apply IH.
  - intros a b Ha Hb. apply in_map_iff in Ha as (y & <- & _).
    apply in_flat_map in Hb as (x' & Hx' & Hb).
    apply in_map_iff in Hb as (y' & <- & _).
    apply lex_lt_app_diff.
    + rewrite Forall_forall in Hn'. now rewrite (Hn' x' Hx').
    + rewrite Forall_forall in Hx. now apply Hx.
Qed.

(** Over an increasing pool the product is enumerated in increasing
    lexicographic order. *)
Lemma product_sorted (pool : list nat) (n : nat) :
  StronglySorted lt pool -> StronglySorted lex_lt (product pool n).
Proof.
  intros Hp. induction n as [|n IH].
  - rewrite product_zero. constructor; constructor.
  - rewrite product_succ. apply (product_step_sorted pool _ n Hp IH).
    apply Forall_forall. intros x Hx. now apply in_product in Hx as [Hl _].
Qed.

Lemma seq_sorted (len start : nat) : StronglySorted lt (seq start len).
Proof.
  revert start. induction len as [|len IH]; intros start; simpl; constructor.
  - apply IH.
  - apply Forall_forall. intros x Hx. apply in_seq in Hx. lia.
Qed.

Lemma map_nth_seq {A : Type} (l : list A) (default : A) :
  map (fun i => nth i l default) (seq 0 (List.length l)) = l.
Proof.
  induction l as [|a l IH]; [reflexivity|].
  simpl. f_equal. rewrite <- seq_shift, map_map. exact IH.
Qed.

(** C2: without random selection, and with a repeat length that is not
    negative, the generator yields the product of the catalog's keys: as
    many tuples as the number of keys to the power of the repeat length,
    no tuple twice, every tuple of that length over the keys, in the
    lexicographic order of the positions of the keys in the catalog, and
    the same for every run. *)
Theorem exhaustive_enumeration (s : Session) (monomers_dict : pydict)
    (draws : list Z) :
  NoDup (dict_keys monomers_dict) ->
  (0 <= length_repeat s)%Z ->
  let keys := dict_keys monomers_dict in
  let m := List.length keys in
  let n := Z.to_nat (length_repeat s) in
  exists cs,
    get_polymer_compositions s monomers_dict 0 draws = Ok (cs, true)
    /\ Z.of_nat (List.length cs) = (Z.of_nat m ^ length_repeat s)%Z
    /\ NoDup cs
    /\ (forall t, In t cs <->
          List.length t = n /\ Forall (fun id => In id keys) t)
    /\ cs = map (map (fun i => nth i keys "")) (product (seq 0 m) n)
    /\ StronglySorted lex_lt (product (seq 0 m) n)
    /\ (forall draws',
          get_polymer_compositions s monomers_dict 0 draws' = Ok (cs, true)).
Proof.
  intros Hnd HL. cbv zeta.
  exists (product (dict_keys monomers_dict) (Z.to_nat (length_repeat s))).
  assert (Hget : forall ds,
            get_polymer_compositions s monomers_dict 0 ds
            = Ok (product (dict_keys monomers_dict)
                    (Z.to_nat (length_repeat s)), true)).
  { intros ds. unfold get_polymer_compositions, itertools_product. simpl.
    destruct (length_repeat s <? 0)%Z eqn:Hneg; [|reflexivity].
    apply Z.ltb_lt in Hneg. lia. }
  split; [apply Hget|]. split.
  { unfold composition. rewrite length_product, Nat2Z.inj_pow, Z2Nat.id by assumption.
    reflexivity. }
  split; [now apply NoDup_product|].
  split; [intros t; apply in_product|].
  split.
  { rewrite <- product_map, map_nth_seq. reflexivity. }
  split; [apply product_sorted, seq_sorted | exact Hget].
Qed.

Lemma exhaustive_enumeration_witness :
  NoDup (dict_keys AB_catalog)
  /\ (0 <= length_repeat demo_session)%Z
  /\ exists cs,
       get_polymer_compositions demo_session AB_catalog 0 [] = Ok (cs, true)
       /\ Z.of_nat (List.length cs) = (2 ^ 2)%Z.
Proof.
  assert (H1 : NoDup (dict_keys AB_catalog)).
  { simpl. constructor.
    - intros [H|[]]. discriminate.
    - constructor; [intros [] | constructor]. }
  assert (H2 : (0 <= length_repeat demo_session)%Z) by (simpl; lia).
  split; [exact H1|]. split; [exact H2|].
  destruct (exhaustive_enumeration demo_session AB_catalog [] H1 H2)
    as (cs & Hget & Hlen & _).
  exists cs. split; [exact Hget | exact Hlen].
Defined.

(* ================================================================== *)
(** ** Random selection *)

(** When the loop is left, it has yielded [random_select - counter] items. *)
Lemma random_loop_length (prod : list composition) (k : Z) (draws : list Z) :
  forall counter,
    snd (random_loop prod k counter draws) = true ->
    Z.of_nat (List.length (fst (random_loop prod k counter draws)))
    = Z.max 0 (k - counter).
Proof.
  induction draws as [|choice draws IH]; intros counter; simpl.
  - destruct (counter <? k)%Z eqn:Hc; simpl; [discriminate|].
    apply Z.ltb_ge in Hc. lia.
  - destruct (counter <? k)%Z eqn:Hc; simpl.
    + apply Z.ltb_lt in Hc. destruct (pick prod choice) as [item|].
      * specialize (IH (counter + 1)%Z).
        destruct (random_loop prod k (counter + 1) draws) as [items left].
        simpl in *. intros Hl. specialize (IH Hl). lia.
      * apply IH.
    + apply Z.ltb_ge in Hc. lia.
Qed.

(** Enough draws that name a position let the loop end. *)
Lemma random_loop_ends (prod : list composition) (k : Z) (draws : list Z) :
  forall counter,
    (k - counter <= Z.of_nat (valid_draws prod draws))%Z ->
    snd (random_loop prod k counter draws) = true.
Proof.
  unfold valid_draws.
  induction draws as [|choice draws IH]; intros counter; simpl.
  - destruct (counter <? k)%Z eqn:Hc; [|reflexivity].
    apply Z.ltb_lt in Hc. lia.
  - destruct (counter <? k)%Z eqn:Hc; [|reflexivity].
    unfold valid_draw at 1. destruct (pick prod choice) as [item|].
    + specialize (IH (counter + 1)%Z).
      destruct (random_loop prod k (counter + 1) draws) as [items left].
      simpl in *. intros Hn. apply IH. lia.
    + apply IH.
Qed.

Lemma random_mode (s : Session) (d : pydict) (k : Z) (draws : list Z) :
  (0 <= length_repeat s)%Z -> k <> 0%Z ->
  get_polymer_compositions s d k draws
  = Ok (random_loop (product (dict_keys d) (Z.to_nat (length_repeat s))) k 0 draws).
Proof.
  intros HL Hk. unfold get_polymer_compositions, itertools_product.
  destruct (k =? 0)%Z eqn:Hk0; [apply Z.eqb_eq in Hk0; contradiction|].
  destruct (length_repeat s <? 0)%Z eqn:Hneg; [|reflexivity].
  apply Z.ltb_lt in Hneg. lia.
Qed.

(** C4, as stated, fails: one monomer, repeat length 1, and two samples
    requested from a product space of size one; nothing is raised and
    [A] is yielded twice. *)
Lemma random_select_beyond_product_counterexample :
  (Z.of_nat (List.length (dict_keys A_catalog)) ^ length_repeat A_session < 2)%Z
  /\ get_polymer_compositions A_session A_catalog 2 [0; 0]%Z
     = Ok ([["A"]; ["A"]], true)
  /\ ~ exists e, get_polymer_compositions A_session A_catalog 2 [0; 0]%Z = Raise e.
Proof.
  split; [vm_compute; reflexivity|]. split; [reflexivity|].
  intros [e H]. discriminate.
Qed.

(** C4 (amended): a sample count above the size of the product space raises
    nothing: the loop goes on drawing, yields members of the product space
    only, ends once [random_select] draws have named a position, and has
    then yielded [random_select] compositions, some of them more than
    once. *)
Theorem random_select_beyond_product_draws_on (s : Session)
    (monomers_dict : pydict) (random_select : Z) (draws : list Z) :
  (0 <= length_repeat s)%Z ->
  (Z.of_nat (List.length (dict_keys monomers_dict)) ^ length_repeat s
   < random_select)%Z ->
  let prod := product (dict_keys monomers_dict) (Z.to_nat (length_repeat s)) in
  exists items left,
    get_polymer_compositions s monomers_dict random_select draws
    = Ok (items, left)
    /\ incl items prod
    /\ (left = true ->
        Z.of_nat (List.length items) = random_select /\ ~ NoDup items)
    /\ ((random_select <= Z.of_nat (valid_draws prod draws))%Z -> left = true).
Proof.
  intros HL Hk. cbv zeta.
  set (prod := product (dict_keys monomers_dict) (Z.to_nat (length_repeat s))).
  assert (Hsize : Z.of_nat (List.length prod)
                  = (Z.of_nat (List.length (dict_keys monomers_dict))
                     ^ length_repeat s)%Z).
  { unfold prod. rewrite length_product, Nat2Z.inj_pow, Z2Nat.id by assumption.
    reflexivity. }
  assert (Hpos : (0 <= Z.of_nat (List.length prod))%Z) by lia.
  assert (Hk0 : random_select <> 0%Z) by lia.
  rewrite (random_mode s monomers_dict random_select draws HL Hk0). fold prod.
  destruct (random_loop prod random_select 0 draws) as [items left] eqn:Hloop.
  exists items, left. split; [reflexivity|].
  assert (Hincl : incl items prod).
  { intros item Hin. apply (random_loop_in prod random_select draws 0%Z).
    now rewrite Hloop. }
  split; [exact Hincl|]. split.
  - intros ->.
    pose proof (random_loop_length prod random_select draws 0%Z) as Hlen.
    rewrite Hloop in Hlen. simpl in Hlen. specialize (Hlen eq_refl).
    split; [lia|].
    intros Hnd. pose proof (NoDup_incl_length Hnd Hincl) as Hle.
    unfold composition in *. lia.
  - intros Hv. pose proof (random_loop_ends prod random_select draws 0%Z) as He.
    rewrite Hloop in He. simpl in He. apply He. lia.
Qed.

Lemma random_select_beyond_product_draws_on_witness :
  (0 <= length_repeat A_session)%Z
  /\ (Z.of_nat (List.length (dict_keys A_catalog)) ^ length_repeat A_session < 2)%Z
  /\ exists items left,
       get_polymer_compositions A_session A_catalog 2 [0; 0]%Z = Ok (items, left)
       /\ incl items (product (dict_keys A_catalog)
                        (Z.to_nat (length_repeat A_session)))
       /\ (left = true -> Z.of_nat (List.length items) = 2%Z /\ ~ NoDup items)
       /\ ((2 <= Z.of_nat
                   (valid_draws
                      (product (dict_keys A_catalog)
                         (Z.to_nat (length_repeat A_session))) [0; 0]%Z))%Z ->
           left = true).
Proof.
  assert (H1 : (0 <= length_repeat A_session)%Z) by (simpl; lia).
  assert (H2 : (Z.of_nat (List.length (dict_keys A_catalog))
                ^ length_repeat A_session < 2)%Z) by (vm_compute; reflexivity).
  split; [exact H1|]. split; [exact H2|].
  exact (random_select_beyond_product_draws_on A_session A_catalog 2 [0; 0]%Z
           H1 H2).
Defined.





(* ================================================================== *)
(** ** The order of the sort keys *)

Lemma ascii_compare_lt_trans (a b c : ascii) :
  Ascii.compare a b = Lt -> Ascii.compare b c = Lt -> Ascii.compare a c = Lt.
Proof.
  unfold Ascii.compare. rewrite !N.compare_lt_iff. apply N.lt_trans.
Qed.

Lemma ascii_compare_refl (a : ascii) : Ascii.compare a a = Eq.
Proof. unfold Ascii.compare. apply N.compare_refl. Qed.

Lemma string_compare_refl (s : string) : String.compare s s = Eq.
Proof.
  induction s as [|c s IH]; [reflexivity|].
  simpl. now rewrite ascii_compare_refl.
Qed.

Lemma string_compare_lt_trans (a : string) :
  forall b c,
    String.compare a b = Lt -> String.compare b c = Lt -> String.compare a c = Lt.
Proof.
  induction a as [|x a IH]; intros [|y b] [|z c]; simpl; try discriminate;
    try reflexivity.
  destruct (Ascii.compare x y) eqn:Hxy; try discriminate;
    destruct (Ascii.compare y z) eqn:Hyz; try discriminate; intros H1 H2.
  - apply Ascii.compare_eq_iff in Hxy, Hyz. subst.
    rewrite ascii_compare_refl. now apply (IH b c).
  - apply Ascii.compare_eq_iff in Hxy. subst. now rewrite Hyz.
  - apply Ascii.compare_eq_iff in Hyz. subst. now rewrite Hxy.
  - now rewrite (ascii_compare_lt_trans _ _ _ Hxy Hyz).
Qed.

Lemma ltb_compare (a b : string) : String.ltb a b = true <-> String.compare a b = Lt.
Proof.
  unfold String.ltb. destruct (String.compare a b); split; intros H;
    try discriminate; reflexivity.
Qed.

Lemma ltb_trans (a b c : string) :
  String.ltb a b = true -> String.ltb b c = true -> String.ltb a c = true.
Proof. rewrite !ltb_compare. apply string_compare_lt_trans. Qed.

Lemma ltb_irrefl (a : string) : String.ltb a a = false.
Proof. unfold String.ltb. now rewrite string_compare_refl. Qed.

(** Of two different strings one is below the other. *)
Lemma ltb_connected (a b : string) :
  String.ltb a b = false -> String.ltb b a = false -> a = b.
Proof.
  unfold String.ltb. rewrite (String.compare_antisym a b).
  destruct (String.compare b a) eqn:H; simpl; try discriminate.
  intros _ _. symmetry. now apply String.compare_eq_iff.
Qed.

Lemma key_lt_irrefl (k : string * string) : key_lt k k = false.
Proof. unfold key_lt. now rewrite !ltb_irrefl, andb_false_r. Qed.

Lemma key_lt_trans (a b c : string * string) :
  key_lt a b = true -> key_lt b c = true -> key_lt a c = true.
Proof.
  unfold key_lt. destruct a as [a1 a2], b as [b1 b2], c as [c1 c2]. simpl.
  rewrite !orb_true_iff, !andb_true_iff, !String.eqb_eq.
  intros [H1|[-> H1]] [H2|[-> H2]].
  - left. now apply (ltb_trans _ b1).
  - now left.
  - now left.
  - right. split; [reflexivity|]. now apply (ltb_trans _ b2).
Qed.

Lemma key_lt_connected (a b : string * string) :
  key_lt a b = false -> key_lt b a = false -> a = b.
Proof.
  unfold key_lt. destruct a as [a1 a2], b as [b1 b2]. simpl.
  rewrite !orb_false_iff, !andb_false_iff. intros [H1 H1'] [H2 H2'].
  assert (a1 = b1) by now apply ltb_connected. subst b1.
  rewrite String.eqb_refl in H1', H2'.
  destruct H1' as [?|H1']; [discriminate|].
  destruct H2' as [?|H2']; [discriminate|].
  f_equal. now apply ltb_connected.
Qed.

Lemma key_le_refl (k : string * string) : key_le k k.
Proof. apply key_lt_irrefl. Qed.

Lemma key_le_trans (a b c : string * string) :
  key_le a b -> key_le b c -> key_le a c.
Proof.
  unfold key_le. intros Hab Hbc.
  destruct (key_lt c a) eqn:Hca; [|reflexivity].
  destruct (key_lt a b) eqn:Hlt.
  - rewrite (key_lt_trans c a b Hca Hlt) in Hbc. discriminate.
  - rewrite (key_lt_connected a b Hlt Hab) in Hca. congruence.
Qed.

Lemma key_lt_le (a b : string * string) : key_lt a b = true -> key_le a b.
Proof.
  unfold key_le. intros H. destruct (key_lt b a) eqn:Hba; [|reflexivity].
  pose proof (key_lt_trans a b a H Hba) as Haa.
  rewrite key_lt_irrefl in Haa. discriminate.
Qed.

Lemma key_eqb_eq (a b : string * string) : key_eqb a b = true <-> a = b.
Proof.
  unfold key_eqb. destruct a as [a1 a2], b as [b1 b2]. simpl.
  rewrite andb_true_iff, !String.eqb_eq. split.
  - intros [-> ->]. reflexivity.
  - intros H. injection H as -> ->. now split.
Qed.

(* ================================================================== *)
(** ** The sort pass *)

Lemma insert_keyed_perm (x : keyed) (l : list keyed) :
  Permutation (x :: l) (insert_keyed x l).
Proof.
  induction l as [|y l IH]; simpl; [apply Permutation_refl|].
  destruct (key_lt (fst y) (fst x)); [|apply Permutation_refl].
  eapply Permutation_trans; [apply perm_swap|]. now apply perm_skip.
Qed.

Lemma sort_keyed_perm (l : list keyed) : Permutation l (sort_keyed l).
Proof.
  induction l as [|x l IH]; simpl; [constructor|].
  eapply Permutation_trans; [apply perm_skip, IH | apply insert_keyed_perm].
Qed.

Lemma insert_keyed_sorted (x : keyed) (l : list keyed) :
  StronglySorted keyed_le l -> StronglySorted keyed_le (insert_keyed x l).
Proof.
  induction 1 as [|y l Hs IH Hy]; simpl.
  - constructor; constructor.
  - destruct (key_lt (fst y) (fst x)) eqn:Hlt.
    + constructor; [exact IH|].
      apply (Permutation_Forall (insert_keyed_perm x l)).
      constructor; [now apply key_lt_le | exact Hy].
    + constructor; [now constructor|].
      constructor; [exact Hlt|].
      eapply Forall_impl; [|exact Hy].
      intros z Hz. unfold keyed_le in *. eapply key_le_trans; [exact Hlt | exact Hz].
Qed.

Lemma sort_keyed_sorted (l : list keyed) : StronglySorted keyed_le (sort_keyed l).
Proof.
  induction l as [|x l IH]; simpl; [constructor|].
  now apply insert_keyed_sorted.
Qed.

(** Inserting a line puts it before the lines of its own key: the lines of
    any one key keep their order. *)
Lemma insert_keyed_stable (k : string * string) (x : keyed) (l : list keyed) :
  filter (fun y => key_eqb (fst y) k) (insert_keyed x l)
  = filter (fun y => key_eqb (fst y) k) (x :: l).
Proof.
  induction l as [|y l IH]; [reflexivity|].
  simpl insert_keyed. destruct (key_lt (fst y) (fst x)) eqn:Hlt; [|reflexivity].
  cbn [filter] in *. rewrite IH.
  destruct (key_eqb (fst x) k) eqn:Hx; [|reflexivity].
  destruct (key_eqb (fst y) k) eqn:Hy; [|reflexivity].
  apply key_eqb_eq in Hx, Hy. rewrite Hx, Hy, key_lt_irrefl in Hlt. discriminate.
Qed.

Lemma sort_keyed_stable (k : string * string) (l : list keyed) :
  filter (fun y => key_eqb (fst y) k) (sort_keyed l)
  = filter (fun y => key_eqb (fst y) k) l.
Proof.
  induction l as [|x l IH]; [reflexivity|].
  simpl sort_keyed. rewrite insert_keyed_stable. cbn [filter]. now rewrite IH.
Qed.

Lemma decorate_rows (rows : list (list string)) :
  Forall nine_fields rows ->
  decorate rows = Some (map (fun r => (row_key r, r)) rows).
Proof.
  induction 1 as [|r rows [Hlen _] _ IH]; [reflexivity|].
  simpl. rewrite IH.
  destruct r as [|a [|b r]]; try discriminate. reflexivity.
Qed.

Lemma filter_map_snd (k : string * string) (l : list keyed) :
  Forall own_key l ->
  rows_of_key k (map snd l) = map snd (filter (fun y => key_eqb (fst y) k) l).
Proof.
  unfold rows_of_key. induction 1 as [|x l Hx _ IH]; [reflexivity|].
  simpl. rewrite <- Hx, IH. destruct (key_eqb (fst x) k); reflexivity.
Qed.

Lemma sorted_map_snd (l : list keyed) :
  Forall own_key l -> StronglySorted keyed_le l -> rows_sorted (map snd l).
Proof.
  unfold rows_sorted. intros Hown Hs.
  induction Hs as [|x l Hs IH Hx]; [constructor|].
  inversion Hown as [|? ? Hox Hol]; subst. simpl.
  constructor; [now apply IH|].
  apply Forall_map. rewrite Forall_forall in *.
  intros y Hy. specialize (Hx y Hy). specialize (Hol y Hy).
  unfold keyed_le, own_key in *. now rewrite <- Hox, <- Hol.
Qed.

Lemma format9_nine (row : list string) :
  nine_fields row ->
  format9 row
  = Some (PyStr.join (String PyStr.TAB "") row ++ String PyStr.LF "")%string.
Proof.
  intros [Hlen _].
  destruct row as [|a [|b [|c [|d [|e [|f [|g [|h [|i [|j row]]]]]]]]]];
    try discriminate. reflexivity.
Qed.

Lemma write_lines_nine (rows : list (list string)) :
  Forall nine_fields rows ->
  forall written,
    write_lines written rows = ((written ++ tabbed rows)%string, None).
Proof.
  induction 1 as [|r rows Hr _ IH]; intros written; simpl.
  - now rewrite PyStrFacts.append_nil_r.
  - rewrite (format9_nine r Hr), IH. unfold tabbed. simpl.
    now rewrite !PyStrFacts.append_assoc.
Qed.

Lemma read_tabbed (rows : list (list string)) :
  Forall nine_fields rows ->
  map PyStr.split (PyStr.readlines (tabbed rows)) = rows.
Proof.
  intros H. unfold tabbed. apply PyStrFacts.read_rows; [reflexivity | reflexivity |].
  eapply Forall_impl; [|exact H]. intros r [_ Hr]. exact Hr.
Qed.

(** C6: on a file of a header and rows of nine fields each, the sort pass
    returns without error and rewrites the file as the same header line
    followed by the same rows, ordered by the pair of their first two
    fields, rows of equal key in their former order. *)
Theorem output_sort_sorts_rows (header : list string) (rows : list (list string)) :
  nine_fields header ->
  Forall nine_fields rows ->
  exists sorted,
    output_sort (tabbed (header :: rows)) = (tabbed (header :: sorted), None)
    /\ Permutation rows sorted
    /\ rows_sorted sorted
    /\ (forall k, rows_of_key k sorted = rows_of_key k rows).
Proof.
  intros Hh Hrows.
  set (dec := map (fun r => (row_key r, r)) rows).
  assert (Hown : Forall own_key dec).
  { unfold dec. apply Forall_map, Forall_forall. intros r _. reflexivity. }
  assert (Hsnd : map snd dec = rows).
  { unfold dec. rewrite map_map. simpl. apply map_id. }
  assert (Hperm : Permutation rows (map snd (sort_keyed dec))).
  { rewrite <- Hsnd at 1. apply Permutation_map, sort_keyed_perm. }
  assert (Hown' : Forall own_key (sort_keyed dec))
    by exact (Permutation_Forall (sort_keyed_perm dec) Hown).
  exists (map snd (sort_keyed dec)). split.
  - unfold output_sort.
    rewrite (read_tabbed (header :: rows)) by now constructor.
    rewrite (decorate_rows rows Hrows). fold dec.
    rewrite write_lines_nine; [reflexivity|].
    constructor; [exact Hh|]. exact (Permutation_Forall Hperm Hrows).
  - split; [exact Hperm|]. split.
    + apply sorted_map_snd; [exact Hown' | apply sort_keyed_sorted].
    + intros k. rewrite (filter_map_snd k _ Hown'), sort_keyed_stable.
      rewrite <- (filter_map_snd k _ Hown). now rewrite Hsnd.
Qed.

Lemma output_sort_sorts_rows_witness :
  nine_fields demo_header
  /\ Forall nine_fields [row_BA; row_AC; row_AB]
  /\ exists sorted,
       output_sort (tabbed (demo_header :: [row_BA; row_AC; row_AB]))
       = (tabbed (demo_header :: sorted), None)
       /\ Permutation [row_BA; row_AC; row_AB] sorted
       /\ rows_sorted sorted
       /\ (forall k, rows_of_key k sorted = rows_of_key k [row_BA; row_AC; row_AB]).
Proof.
  assert (H1 : nine_fields demo_header).
  { split; [reflexivity | repeat constructor]. }
  assert (H2 : Forall nine_fields [row_BA; row_AC; row_AB]).
  { repeat constructor. }
  split; [exact H1|]. split; [exact H2|].
  exact (output_sort_sorts_rows demo_header [row_BA; row_AC; row_AB] H1 H2).
Defined.

(** The rows [B A], [A C], [A B] come out as [A B], [A C], [B A], under the
    unchanged header. *)
Lemma output_sort_example :
  output_sort (tabbed [demo_header; row_BA; row_AC; row_AB])
  = (tabbed [demo_header; row_AB; row_AC; row_BA], None).
Proof. vm_compute. reflexivity. Qed.

(** Rows of one key keep their order: the sort is stable. *)
Lemma output_sort_stable_example :
  output_sort
    (tabbed [demo_header;
             ["B"; "A"; "x"; "1"; "1"; "1"; "1"; "1"; "1"];
             ["A"; "B"; "second"; "1"; "1"; "1"; "1"; "1"; "1"];
             ["A"; "B"; "first"; "1"; "1"; "1"; "1"; "1"; "1"]])
  = (tabbed [demo_header;
             ["A"; "B"; "second"; "1"; "1"; "1"; "1"; "1"; "1"];
             ["A"; "B"; "first"; "1"; "1"; "1"; "1"; "1"; "1"];
             ["B"; "A"; "x"; "1"; "1"; "1"; "1"; "1"; "1"]], None).
Proof. vm_compute. reflexivity. Qed.

(** C10, as stated, fails with two workers: random selection of two
    samples with the draws 0 and 0 yields the palindrome [A A] twice, both
    workers read the empty work-log before either appends, and [A A] is
    recorded and run twice. *)
Lemma palindrome_two_workers_counterexample :
  let w1 := snd (__init__ demo_env "run" 2 2 10 None empty_world) in
  let w2 :=
    snd (screen_pool demo_env demo_session AB_file 2 [0; 0]%Z
           [0; 1; 0; 1]%nat w1) in
  get_polymer_compositions demo_session AB_catalog 2 [0; 0]%Z
  = Ok ([["A"; "A"]; ["A"; "A"]], true)
  /\ rev ["A"; "A"] = ["A"; "A"]
  /\ parse_log (temp w2) = [["A"; "A"]; ["A"; "A"]]
  /\ occurrences ["A"; "A"] (parse_log (temp w2)) = 2%nat
  /\ occurrences ["A"; "A"] (parse_log (temp w2)) <> 1%nat
  /\ List.length
       (filter (fun ev => match ev with
                          | EvStage GeneratePolymer _ => true
                          | _ => false
                          end) (events w2)) = 2%nat.
Proof.
  cbv zeta. repeat split; try (vm_compute; reflexivity).
  vm_compute. discriminate.
Qed.

(* ================================================================== *)
(** * Further properties of the session *)

(** ** The monomer list *)

Lemma fill_dict_bad_line (good : list (list string)) (bad : list string)
    (rest : list (list string)) :
  Forall (fun line => List.length line = 2%nat) good ->
  List.length bad <> 2%nat ->
  forall d,
    fill_dict (good ++ bad :: rest) d
    = Raise (ValueError "wrong number of values to unpack").
Proof.
  intros Hgood Hbad. induction Hgood as [|line good Hline _ IH]; intros d.
  - simpl. destruct bad as [|a [|b [|c bad]]]; try reflexivity.
    now elim Hbad.
  - destruct line as [|a [|b [|c line]]]; try discriminate. simpl. apply IH.
Qed.

(** X1: a line of the monomer list that does not have exactly two fields
    makes [screen] raise [ValueError] before the output header is written
    and before anything is dispatched: the world is as it was. *)
Theorem screen_rejects_malformed_monomer_list (E : env) (s : Session)
    (file : string) (k : Z) (draws : list Z) (w : world)
    (good : list (list string)) (bad : list string) (rest : list (list string)) :
  map PyStr.split (PyStr.readlines file) = good ++ bad :: rest ->
  Forall (fun line => List.length line = 2%nat) good ->
  List.length bad <> 2%nat ->
  screen E s file k draws w
  = (Raise (ValueError "wrong number of values to unpack"), w).
Proof.
  intros Hfile Hgood Hbad. unfold screen. unfold bind at 1. unfold lift at 1.
  now rewrite Hfile, (fill_dict_bad_line good bad rest Hgood Hbad).
Qed.

Lemma screen_rejects_malformed_monomer_list_witness :
  map PyStr.split (PyStr.readlines (PyStr.unlines ["A CCC"; "B"; "C CCN"]))
  = [["A"; "CCC"]] ++ ["B"] :: [["C"; "CCN"]]
  /\ screen demo_env demo_session (PyStr.unlines ["A CCC"; "B"; "C CCN"]) 0 []
       empty_world
     = (Raise (ValueError "wrong number of values to unpack"), empty_world).
Proof.
  assert (H1 : map PyStr.split
                 (PyStr.readlines (PyStr.unlines ["A CCC"; "B"; "C CCN"]))
               = [["A"; "CCC"]] ++ ["B"] :: [["C"; "CCN"]]) by reflexivity.
  split; [exact H1|].
  apply (screen_rejects_malformed_monomer_list demo_env demo_session _ 0 []
           empty_world [["A"; "CCC"]] ["B"] [["C"; "CCN"]] H1).
  - repeat constructor.
  - simpl. lia.
Defined.

Lemma dict_get_set (k k' v : string) (d : pydict) :
  dict_get k (dict_set k' v d)
  = if String.eqb k k' then Some v else dict_get k d.
Proof.
  induction d as [|[k0 v0] d IH]; simpl.
  - reflexivity.
  - destruct (String.eqb k' k0) eqn:H0; simpl.
    + apply String.eqb_eq in H0. subst k0.
      destruct (String.eqb k k'); reflexivity.
    + rewrite IH. destruct (String.eqb k k0) eqn:H1; [|reflexivity].
      apply String.eqb_eq in H1. subst k0.
      destruct (String.eqb k k') eqn:H2; [|reflexivity].
      apply String.eqb_eq in H2. subst k'. rewrite String.eqb_refl in H0.
      discriminate.
Qed.

Lemma fill_dict_get (id : string) (monomers : list (list string)) :
  forall d d',
    fill_dict monomers d = Ok d' ->
    dict_get id d'
    = match last_descriptor id monomers with
      | Some smiles => Some smiles
      | None => dict_get id d
      end.
Proof.
  induction monomers as [|line monomers IH]; intros d d' H.
  - simpl in H. injection H as <-. reflexivity.
  - destruct line as [|a [|b [|c line]]]; try discriminate.
    simpl in H. rewrite (IH _ _ H). simpl.
    destruct (last_descriptor id monomers); [reflexivity|].
    rewrite dict_get_set. now destruct (String.eqb id a).
Qed.

Lemma dict_get_in (id : string) (d : pydict) :
  In id (dict_keys d) <-> exists smiles, dict_get id d = Some smiles.
Proof.
  induction d as [|[k v] d IH]; simpl.
  - split; [intros [] | intros [? H]; discriminate].
  - destruct (String.eqb id k) eqn:Hk.
    + apply String.eqb_eq in Hk. subst k. split; [now exists v | now left].
    + apply String.eqb_neq in Hk. rewrite <- IH. split.
      * intros [H|H]; [now elim Hk | assumption].
      * now right.
Qed.

(** X2: in the catalog that [screen] builds, an identifier stands for the
    descriptor of the last line that names it, the keys are pairwise
    distinct, and a key is an identifier of some line. *)
Theorem catalog_holds_last_descriptor (monomers : list (list string))
    (d : pydict) :
  fill_dict monomers [] = Ok d ->
  NoDup (dict_keys d)
  /\ (forall id, dict_get id d = last_descriptor id monomers)
  /\ (forall id, In id (dict_keys d) <->
        exists smiles, last_descriptor id monomers = Some smiles).
Proof.
  intros H.
  assert (Hget : forall id, dict_get id d = last_descriptor id monomers).
  { intros id. rewrite (fill_dict_get id _ _ _ H).
    now destruct (last_descriptor id monomers). }
  split.
  - apply (fill_dict_keys (fun _ => True) monomers [] d H).
    + apply Forall_forall. intros line _. apply Forall_forall. auto.
    + split; constructor.
  - split; [exact Hget|]. intros id. rewrite dict_get_in.
    now setoid_rewrite Hget.
Qed.

Lemma catalog_holds_last_descriptor_witness :
  fill_dict [["A"; "CCC"]; ["B"; "CCO"]; ["A"; "CCN"]] []
  = Ok [("A", "CCN"); ("B", "CCO")]
  /\ dict_get "A" [("A", "CCN"); ("B", "CCO")]
     = last_descriptor "A" [["A"; "CCC"]; ["B"; "CCO"]; ["A"; "CCN"]].
Proof.
  assert (H : fill_dict [["A"; "CCC"]; ["B"; "CCO"]; ["A"; "CCN"]] []
              = Ok [("A", "CCN"); ("B", "CCO")]) by reflexivity.
  split; [exact H|].
  exact (proj1 (proj2 (catalog_holds_last_descriptor _ _ H)) "A").
Defined.

(** X3: with a negative repeat length [screen] reads the catalog and
    writes the output header, then raises the [ValueError] of
    [itertools.product]; nothing is dispatched and the work-log is as it
    was. *)
Theorem screen_negative_repeat_length (E : env) (s : Session) (file : string)
    (k : Z) (draws : list Z) (w : world) (d : pydict) :
  fill_dict (map PyStr.split (PyStr.readlines file)) [] = Ok d ->
  (length_repeat s < 0)%Z ->
  screen E s file k draws w
  = (Raise (ValueError "repeat argument cannot be negative"),
     mkWorld (temp w)
       (events w ++ [EvWriteFile
          (session_name s ++ "/" ++ "screening-output")%string
          (output_header E)])).
Proof.
  intros Hd HL. unfold screen. unfold bind at 1. unfold lift at 1. rewrite Hd.
  unfold bind at 1. unfold emit at 1. unfold bind at 1. unfold lift at 1.
  unfold get_polymer_compositions, itertools_product.
  apply Z.ltb_lt in HL. rewrite HL.
  destruct (k =? 0)%Z; reflexivity.
Qed.

Lemma screen_negative_repeat_length_witness :
  fill_dict (map PyStr.split (PyStr.readlines AB_file)) [] = Ok AB_catalog
  /\ (length_repeat (mkSession "run" (-1) 2 10 []) < 0)%Z
  /\ screen demo_env (mkSession "run" (-1) 2 10 []) AB_file 0 [] empty_world
     = (Raise (ValueError "repeat argument cannot be negative"),
        mkWorld "" [EvWriteFile "run/screening-output" "header"]).
Proof.
  assert (H1 : fill_dict (map PyStr.split (PyStr.readlines AB_file)) []
               = Ok AB_catalog) by reflexivity.
  assert (H2 : (length_repeat (mkSession "run" (-1) 2 10 []) < 0)%Z)
    by (simpl; lia).
  split; [exact H1|]. split; [exact H2|].
  exact (screen_negative_repeat_length demo_env (mkSession "run" (-1) 2 10 [])
           AB_file 0 [] empty_world AB_catalog H1 H2).
Defined.

(** X4: in either mode every enumerated composition has the repeat length,
    and each of its identifiers is a key of the catalog, so that the lookup
    [monomers_dict[id]] of [generate_polymer] finds a descriptor. *)
Theorem enumerated_ids_are_catalog_keys (s : Session) (d : pydict) (k : Z)
    (draws : list Z) (cs : list composition) (exhausted : bool) :
  get_polymer_compositions s d k draws = Ok (cs, exhausted) ->
  Forall
    (fun c =>
       Z.of_nat (List.length c) = length_repeat s
       /\ Forall (fun id => exists smiles, dict_get id d = Some smiles) c)
    cs.
Proof.
  intros H. apply enumerated_in_product in H as (prod & Hprod & Hincl).
  unfold itertools_product in Hprod.
  destruct (length_repeat s <? 0)%Z eqn:HL; [discriminate|].
  apply Z.ltb_ge in HL. injection Hprod as <-.
  apply Forall_forall. intros c Hc. apply Hincl, in_product in Hc as [Hlen Hids].
  split; [lia|].
  eapply Forall_impl; [|exact Hids]. intros id Hid. now apply dict_get_in.
Qed.

Lemma enumerated_ids_are_catalog_keys_witness :
  get_polymer_compositions demo_session AB_catalog 2 [1; 2]%Z
  = Ok ([["A"; "B"]; ["B"; "A"]], true)
  /\ Forall
       (fun c =>
          Z.of_nat (List.length c) = length_repeat demo_session
          /\ Forall (fun id => exists smiles, dict_get id AB_catalog = Some smiles) c)
       [["A"; "B"]; ["B"; "A"]].
Proof.
  assert (H : get_polymer_compositions demo_session AB_catalog 2 [1; 2]%Z
              = Ok ([["A"; "B"]; ["B"; "A"]], true)) by reflexivity.
  split; [exact H|].
  exact (enumerated_ids_are_catalog_keys demo_session AB_catalog 2 [1; 2]%Z
           _ _ H).
Defined.

(** ** Random selection, draw by draw *)

Lemma random_loop_picked (prod : list composition) (k : Z) (draws : list Z) :
  forall counter,
    random_loop prod k counter draws
    = (firstn (Z.to_nat (k - counter)) (picked prod draws),
       (k - counter <=? Z.of_nat (List.length (picked prod draws)))%Z).
Proof.
  unfold picked.
  induction draws as [|choice draws IH]; intros counter; simpl.
  - destruct (counter <? k)%Z eqn:Hc.
    + apply Z.ltb_lt in Hc. rewrite firstn_nil. f_equal.
      symmetry. apply Z.leb_gt. lia.
    + apply Z.ltb_ge in Hc. rewrite firstn_nil. f_equal.
      symmetry. apply Z.leb_le. lia.
  - destruct (counter <? k)%Z eqn:Hc.
    + apply Z.ltb_lt in Hc. destruct (pick prod choice) as [item|].
      * rewrite (IH (counter + 1)%Z). simpl app.
        replace (Z.to_nat (k - counter)) with (S (Z.to_nat (k - (counter + 1))))
          by lia.
        simpl. f_equal.
        destruct (k - (counter + 1) <=? _)%Z eqn:H1;
          [apply Z.leb_le in H1; symmetry; apply Z.leb_le; lia
          |apply Z.leb_gt in H1; symmetry; apply Z.leb_gt; lia].
      * apply IH.
    + apply Z.ltb_ge in Hc.
      replace (Z.to_nat (k - counter)) with 0%nat by lia. simpl. f_equal.
      symmetry. apply Z.leb_le. lia.
Qed.

(** X5: in random mode the generator yields the compositions at the
    positions that the draws name, in the order of the draws, up to the
    sample count, and it is exhausted exactly when that many draws have
    named a position; a draw outside the product, the upper bound
    [len_product] of [randint] among them, yields nothing and is not
    counted. *)
Theorem random_mode_follows_draws (s : Session) (d : pydict) (k : Z)
    (draws : list Z) :
  (0 <= length_repeat s)%Z -> k <> 0%Z ->
  let prod := product (dict_keys d) (Z.to_nat (length_repeat s)) in
  get_polymer_compositions s d k draws
  = Ok (firstn (Z.to_nat k) (picked prod draws),
        (k <=? Z.of_nat (List.length (picked prod draws)))%Z)
  /\ pick prod (Z.of_nat (List.length prod)) = None
  /\ (forall choice, (choice < 0)%Z -> pick prod choice = None).
Proof.
  intros HL Hk. cbv zeta. rewrite (random_mode s d k draws HL Hk).
  rewrite random_loop_picked, Z.sub_0_r. split; [reflexivity|]. split.
  - unfold pick. destruct (Z.of_nat _ <? 0)%Z; [reflexivity|].
    rewrite Nat2Z.id. apply nth_error_None. apply Nat.le_refl.
  - intros choice Hc. unfold pick. apply Z.ltb_lt in Hc. now rewrite Hc.
Qed.

Lemma random_mode_follows_draws_witness :
  (0 <= length_repeat demo_session)%Z
  /\ 2%Z <> 0%Z
  /\ get_polymer_compositions demo_session AB_catalog 2 [4; 3; -1; 0]%Z
     = Ok ([["B"; "B"]; ["A"; "A"]], true).
Proof.
  assert (H1 : (0 <= length_repeat demo_session)%Z) by (simpl; lia).
  assert (H2 : 2%Z <> 0%Z) by lia.
  split; [exact H1|]. split; [exact H2|].
  exact (proj1 (random_mode_follows_draws demo_session AB_catalog 2
                  [4; 3; -1; 0]%Z H1 H2)).
Defined.

Lemma product_of_nothing {A : Type} (n : nat) : product (@nil A) (S n) = [].
Proof.
  rewrite product_succ. unfold product_step.
  induction (product (@nil A) n) as [|x l IH]; [reflexivity | exact IH].
Qed.

(** X6: with an empty catalog and a positive repeat length the product
    space is empty, and random selection with a positive count never
    leaves its loop: whatever is drawn, nothing is yielded and the
    generator is not exhausted. *)
Theorem random_mode_on_empty_catalog_never_ends (s : Session) (d : pydict)
    (k : Z) (draws : list Z) :
  dict_keys d = [] -> (0 < length_repeat s)%Z -> (0 < k)%Z ->
  get_polymer_compositions s d k draws = Ok ([], false).
Proof.
  intros Hd HL Hk.
  rewrite (random_mode s d k draws) by lia.
  rewrite random_loop_picked, Z.sub_0_r, Hd.
  replace (Z.to_nat (length_repeat s)) with (S (Z.to_nat (length_repeat s) - 1))
    by lia.
  rewrite product_of_nothing.
  assert (Hp : forall prod, prod = [] -> picked prod draws = []).
  { intros prod ->. unfold picked. induction draws as [|c draws IH]; [reflexivity|].
    simpl. rewrite IH. unfold pick.
    destruct (c <? 0)%Z; [reflexivity|]. now destruct (Z.to_nat c). }
  pose proof (Hp [] eq_refl) as Hp0. unfold composition in *.
  rewrite Hp0, firstn_nil. f_equal. f_equal. apply Z.leb_gt. simpl. lia.
Qed.

Lemma random_mode_on_empty_catalog_never_ends_witness :
  dict_keys [] = []
  /\ (0 < length_repeat demo_session)%Z /\ (0 < 1)%Z
  /\ get_polymer_compositions demo_session [] 1 [0; 0; 0]%Z = Ok ([], false).
Proof.
  assert (H1 : dict_keys [] = []) by reflexivity.
  assert (H2 : (0 < length_repeat demo_session)%Z) by (simpl; lia).
  assert (H3 : (0 < 1)%Z) by lia.
  split; [exact H1|]. split; [exact H2|]. split; [exact H3|].
  exact (random_mode_on_empty_catalog_never_ends demo_session [] 1 [0; 0; 0]%Z
           H1 H2 H3).
Defined.

(** ** Directories that cannot be made *)

(** X7: when [os.makedirs] of the session directory raises an [OSError]
    other than [EEXIST], construction raises it, before the solvent is
    looked at and without emptying the work-log. *)
Theorem construction_fails_on_makedirs_error (E : env) (name : string)
    (L nr nc : Z) (solvent : option string) (w : world) (errno : Z) :
  os_makedirs E name = Some errno -> errno <> EEXIST ->
  __init__ E name L nr nc solvent w
  = (Raise (OSError errno), mkWorld (temp w) (events w ++ [EvMakedirs name])).
Proof.
  intros Hm Hne. unfold __init__, makedirs_exist_ok, bind, emit. rewrite Hm.
  apply Z.eqb_neq in Hne. rewrite Hne. reflexivity.
Qed.

Lemma construction_fails_on_makedirs_error_witness :
  os_makedirs locked_env "run" = Some 13%Z /\ 13%Z <> EEXIST
  /\ __init__ locked_env "run" 2 2 10 (Some "vacuum") used_world
     = (Raise (OSError 13), mkWorld (temp used_world) [EvMakedirs "run"]).
Proof.
  assert (H1 : os_makedirs locked_env "run" = Some 13%Z) by reflexivity.
  assert (H2 : 13%Z <> EEXIST) by (unfold EEXIST; lia).
  split; [exact H1|]. split; [exact H2|].
  exact (construction_fails_on_makedirs_error locked_env "run" 2 2 10
           (Some "vacuum") used_world 13 H1 H2).
Defined.

(** X8: a composition is written to the work-log before its directory is
    made.  When [os.makedirs] then raises an [OSError] other than [EEXIST],
    [screening_protocol] raises it with the composition recorded and no
    stage called, and a later call on the composition, or on its reverse,
    finds it handled and does nothing. *)
Theorem recorded_before_directory_is_made (E : env) (s : Session)
    (c : composition) (d : pydict) (w : world) (entries : list composition)
    (errno : Z) :
  temp w = ledger entries -> Forall tokens entries -> tokens c ->
  handled c entries = false ->
  os_makedirs E (working_dir s c) = Some errno -> errno <> EEXIST ->
  let w' := mkWorld (temp w ++ log_line c)
              (events w ++ [EvMakedirs (working_dir s c)]) in
  screening_protocol E s c d w = (Raise (OSError errno), w')
  /\ parse_log (temp w') = entries ++ [c]
  /\ screening_protocol E s c d w' = (Ok tt, w')
  /\ screening_protocol E s (rev c) d w' = (Ok tt, w').
Proof.
  intros Hw He Hc Hh Hm Hne. cbv zeta.
  assert (Hparse : parse_log (temp w ++ log_line c) = entries ++ [c]).
  { rewrite Hw, <- ledger_snoc. apply parse_ledger, Forall_app.
    split; [assumption | now constructor]. }
  split.
  { rewrite screening_protocol_unfold, Hw, (parse_ledger _ He).
    unfold dispatch_unless_screened. unfold handled in Hh.
    apply orb_false_iff in Hh as [-> ->]. cbn [negb andb].
    unfold working_dir in Hm.
    unfold makedirs_exist_ok, bind, append_temp, emit. cbn [temp events].
    rewrite Hm. apply Z.eqb_neq in Hne. rewrite Hne. unfold raise.
    now rewrite Hw. }
  split; [exact Hparse|].
  assert (Hin : In c (parse_log (temp w ++ log_line c))).
  { rewrite Hparse. apply in_app_iff. right. now left. }
  split; rewrite screening_protocol_unfold; apply dispatch_skips;
    cbn [temp]; unfold handled.
  - apply tuple_in_true in Hin. now rewrite Hin.
  - rewrite rev_involutive. apply tuple_in_true in Hin.
    rewrite Hin. apply orb_true_r.
Qed.

Lemma recorded_before_directory_is_made_witness :
  temp empty_world = ledger []
  /\ Forall tokens [] /\ tokens ["A"; "B"]
  /\ handled ["A"; "B"] [] = false
  /\ os_makedirs locked_env (working_dir demo_session ["A"; "B"]) = Some 13%Z
  /\ 13%Z <> EEXIST
  /\ screening_protocol locked_env demo_session ["A"; "B"] AB_catalog empty_world
     = (Raise (OSError 13),
        mkWorld (temp empty_world ++ log_line ["A"; "B"])
          (events empty_world ++ [EvMakedirs (working_dir demo_session ["A"; "B"])])).
Proof.
  assert (H1 : temp empty_world = ledger []) by reflexivity.
  assert (H2 : Forall tokens []) by constructor.
  assert (H3 : tokens ["A"; "B"]) by (repeat constructor).
  assert (H4 : handled ["A"; "B"] [] = false) by reflexivity.
  assert (H5 : os_makedirs locked_env (working_dir demo_session ["A"; "B"])
               = Some 13%Z) by reflexivity.
  assert (H6 : 13%Z <> EEXIST) by (unfold EEXIST; lia).
  split; [exact H1|]. split; [exact H2|]. split; [exact H3|].
  split; [exact H4|]. split; [exact H5|]. split; [exact H6|].
  exact (proj1 (recorded_before_directory_is_made locked_env demo_session
                  ["A"; "B"] AB_catalog empty_world [] 13 H1 H2 H3 H4 H5 H6)).
Defined.

(** ** The sort pass on files of other shapes *)

Lemma decorate_none (rows : list (list string)) :
  Exists (fun r => (List.length r < 2)%nat) rows -> decorate rows = None.
Proof.
  induction 1 as [r rows Hr | r rows _ IH]; simpl.
  - destruct r as [|a [|b r]]; simpl in Hr; try lia; reflexivity.
  - rewrite IH. now destruct (itemgetter_0_1 r).
Qed.

Lemma decorate_some (rows : list (list string)) :
  Forall (fun r => (2 <= List.length r)%nat) rows ->
  decorate rows = Some (map (fun r => (row_key r, r)) rows).
Proof.
  induction 1 as [|r rows Hr _ IH]; [reflexivity|].
  simpl. rewrite IH.
  destruct r as [|a [|b r]]; simpl in Hr; try lia. reflexivity.
Qed.

(** X9: on an empty file, and on a file with a line after the header that
    has fewer than two fields (a blank line is one), the sort pass raises
    [IndexError] before it opens the file for writing: the file is as it
    was. *)
Theorem output_sort_fails_before_writing (file : string) :
  PyStr.readlines file = []
  \/ (exists header rows,
        map PyStr.split (PyStr.readlines file) = header :: rows
        /\ Exists (fun r => (List.length r < 2)%nat) rows) ->
  output_sort file = (file, Some (IndexError "list index out of range")).
Proof.
  unfold output_sort. intros [H|(header & rows & H & Hshort)].
  - now rewrite H.
  - now rewrite H, (decorate_none rows Hshort).
Qed.

Lemma output_sort_fails_before_writing_witness :
  output_sort (tabbed [demo_header; row_BA; []; row_AB])
  = (tabbed [demo_header; row_BA; []; row_AB],
     Some (IndexError "list index out of range")).
Proof.
  apply output_sort_fails_before_writing. right.
  exists demo_header, [row_BA; []; row_AB]. split; [reflexivity|].
  apply Exists_cons_tl, Exists_cons_hd. simpl. lia.
Defined.

Lemma format9_long (line : list string) :
  (9 <= List.length line)%nat ->
  format9 line
  = Some (PyStr.join (String PyStr.TAB "") (firstn 9 line)
          ++ String PyStr.LF "")%string.
Proof.
  intros H.
  destruct line as [|a [|b [|c [|d [|e [|f [|g [|h [|i line]]]]]]]]];
    simpl in H; try lia. reflexivity.
Qed.


Lemma write_lines_long (lines : list (list string)) :
  Forall (fun l => (9 <= List.length l)%nat) lines ->
  forall written,
    write_lines written lines
    = ((written ++ tabbed (map (firstn 9) lines))%string, None).
Proof.
  induction 1 as [|l lines Hl _ IH]; intros written; simpl.
  - now rewrite PyStrFacts.append_nil_r.
  - rewrite (format9_long l Hl), IH. unfold tabbed. simpl.
    now rewrite !PyStrFacts.append_assoc.
Qed.





(** X11: when every line has nine fields or more, the sort pass succeeds
    and writes the first nine fields of each line: fields beyond the ninth
    are dropped, and any run of white space between fields becomes one
    tab. *)
Theorem output_sort_keeps_nine_fields (file : string) (header : list string)
    (rows : list (list string)) :
  map PyStr.split (PyStr.readlines file) = header :: rows ->
  Forall (fun l => (9 <= List.length l)%nat) (header :: rows) ->
  exists sorted,
    Permutation rows sorted
    /\ rows_sorted sorted
    /\ output_sort file = (tabbed (map (firstn 9) (header :: sorted)), None).
Proof.
  intros Hfile Hlong. inversion Hlong as [|? ? Hh Hrows]; subst.
  set (dec := map (fun r => (row_key r, r)) rows).
  assert (Hown : Forall own_key dec).
  { unfold dec. apply Forall_map, Forall_forall. intros r _. reflexivity. }
  assert (Hsnd : map snd dec = rows).
  { unfold dec. rewrite map_map. simpl. apply map_id. }
  assert (Hperm : Permutation rows (map snd (sort_keyed dec))).
  { rewrite <- Hsnd at 1. apply Permutation_map, sort_keyed_perm. }
  exists (map snd (sort_keyed dec)). split; [exact Hperm|]. split.
  - apply sorted_map_snd; [|apply sort_keyed_sorted].
    exact (Permutation_Forall (sort_keyed_perm dec) Hown).
  - unfold output_sort. rewrite Hfile, decorate_some.
    + fold dec. rewrite write_lines_long; [reflexivity|].
      constructor; [exact Hh|]. exact (Permutation_Forall Hperm Hrows).
    + eapply Forall_impl; [|exact Hrows]. simpl. intros; lia.
Qed.

Lemma output_sort_keeps_nine_fields_witness :
  output_sort
    ("a b c d e f g h i j" ++ String PyStr.LF
       ("B   A 1 2 3 4 5 6 7 extra" ++ String PyStr.LF
          ("A B 1 2 3 4 5 6 7" ++ String PyStr.LF "")))%string
  = (tabbed [["a"; "b"; "c"; "d"; "e"; "f"; "g"; "h"; "i"];
             ["A"; "B"; "1"; "2"; "3"; "4"; "5"; "6"; "7"];
             ["B"; "A"; "1"; "2"; "3"; "4"; "5"; "6"; "7"]], None)
  /\ exists sorted,
       Permutation [["B"; "A"; "1"; "2"; "3"; "4"; "5"; "6"; "7"; "extra"];
                    ["A"; "B"; "1"; "2"; "3"; "4"; "5"; "6"; "7"]] sorted
       /\ rows_sorted sorted
       /\ output_sort
            ("a b c d e f g h i j" ++ String PyStr.LF
               ("B   A 1 2 3 4 5 6 7 extra" ++ String PyStr.LF
                  ("A B 1 2 3 4 5 6 7" ++ String PyStr.LF "")))%string
          = (tabbed (map (firstn 9)
                       (["a"; "b"; "c"; "d"; "e"; "f"; "g"; "h"; "i"; "j"]
                        :: sorted)), None).
Proof.
  split; [vm_compute; reflexivity|].
  apply (output_sort_keeps_nine_fields _
           ["a"; "b"; "c"; "d"; "e"; "f"; "g"; "h"; "i"; "j"]
           [["B"; "A"; "1"; "2"; "3"; "4"; "5"; "6"; "7"; "extra"];
            ["A"; "B"; "1"; "2"; "3"; "4"; "5"; "6"; "7"]]).
  - reflexivity.
  - repeat constructor; simpl; lia.
Defined.

Lemma insert_keyed_least (x : keyed) (l : list keyed) :
  Forall (keyed_le x) l -> insert_keyed x l = x :: l.
Proof.
  intros H. destruct l as [|y l]; [reflexivity|].
  inversion H as [|? ? Hxy _]; subst. simpl.
  unfold keyed_le, key_le in Hxy. now rewrite Hxy.
Qed.

(** Sorting what is sorted changes nothing. *)
Lemma sort_keyed_of_sorted (l : list keyed) :
  StronglySorted keyed_le l -> sort_keyed l = l.
Proof.
  induction 1 as [|x l Hs IH Hx]; [reflexivity|].
  simpl. rewrite IH. now apply insert_keyed_least.
Qed.

Lemma redecorate (l : list keyed) :
  Forall own_key l -> map (fun r => (row_key r, r)) (map snd l) = l.
Proof.
  induction 1 as [|[k r] l Hx _ IH]; [reflexivity|].
  simpl. rewrite IH. unfold own_key in Hx. simpl in Hx. now rewrite <- Hx.
Qed.

Lemma sorted_rows_perm (rows : list (list string)) :
  Permutation rows (map snd (sort_keyed (map (fun r => (row_key r, r)) rows))).
Proof.
  assert (Hsnd : map snd (map (fun r => (row_key r, r)) rows) = rows).
  { rewrite map_map. simpl. apply map_id. }
  rewrite <- Hsnd at 1. apply Permutation_map, sort_keyed_perm.
Qed.

Lemma output_sort_tabbed (header : list string) (rows : list (list string)) :
  nine_fields header -> Forall nine_fields rows ->
  output_sort (tabbed (header :: rows))
  = (tabbed (header :: map snd (sort_keyed (map (fun r => (row_key r, r)) rows))),
     None).
Proof.
  intros Hh Hrows. pose proof (sorted_rows_perm rows) as Hperm.
  unfold output_sort.
  rewrite (read_tabbed (header :: rows)) by now constructor.
  rewrite (decorate_rows rows Hrows).
  rewrite write_lines_nine; [reflexivity|].
  constructor; [exact Hh|]. exact (Permutation_Forall Hperm Hrows).
Qed.

(** X12: on a file of a header and rows of nine fields each, a second sort
    pass finds the file sorted and rewrites it as it is. *)
Theorem output_sort_twice (header : list string) (rows : list (list string)) :
  nine_fields header -> Forall nine_fields rows ->
  output_sort (fst (output_sort (tabbed (header :: rows))))
  = output_sort (tabbed (header :: rows)).
Proof.
  intros Hh Hrows. rewrite (output_sort_tabbed header rows Hh Hrows). cbn [fst].
  set (dec := map (fun r => (row_key r, r)) rows).
  assert (Hown : Forall own_key (sort_keyed dec)).
  { apply (Permutation_Forall (sort_keyed_perm dec)).
    unfold dec. apply Forall_map, Forall_forall. intros r _. reflexivity. }
  assert (Hnine : Forall nine_fields (map snd (sort_keyed dec))).
  { exact (Permutation_Forall (sorted_rows_perm rows) Hrows). }
  rewrite (output_sort_tabbed header _ Hh Hnine).
  rewrite (redecorate _ Hown), (sort_keyed_of_sorted _ (sort_keyed_sorted dec)).
  reflexivity.
Qed.

Lemma output_sort_twice_witness :
  nine_fields demo_header /\ Forall nine_fields [row_BA; row_AC; row_AB]
  /\ output_sort
       (fst (output_sort (tabbed (demo_header :: [row_BA; row_AC; row_AB]))))
     = output_sort (tabbed (demo_header :: [row_BA; row_AC; row_AB])).
Proof.
  assert (H1 : nine_fields demo_header).
  { split; [reflexivity | repeat constructor]. }
  assert (H2 : Forall nine_fields [row_BA; row_AC; row_AB]).
  { repeat constructor. }
  split; [exact H1|]. split; [exact H2|].
  exact (output_sort_twice demo_header [row_BA; row_AC; row_AB] H1 H2).
Defined.

(** ** The work-log, written and read *)

(** X13: what [screening_protocol] appends is what it reads back: on a
    work-log of entries made of identifiers without white space, the line
    of one more such composition adds that composition, and nothing else,
    at the end of the parsed log. *)
Theorem worklog_line_round_trip (entries : list composition) (c : composition) :
  Forall tokens entries -> tokens c ->
  parse_log (ledger entries ++ log_line c) = entries ++ [c]
  /\ parse_log (ledger entries) = entries.
Proof.
  intros He Hc. split; [|now apply parse_ledger].
  rewrite <- ledger_snoc. apply parse_ledger, Forall_app.
  split; [assumption | now constructor].
Qed.

Lemma worklog_line_round_trip_witness :
  Forall tokens [["A"; "A"]; ["A"; "B"]] /\ tokens ["B"; "B"]
  /\ parse_log (ledger [["A"; "A"]; ["A"; "B"]] ++ log_line ["B"; "B"])
     = [["A"; "A"]; ["A"; "B"]] ++ [["B"; "B"]].
Proof.
  assert (H1 : Forall tokens [["A"; "A"]; ["A"; "B"]]) by (repeat constructor).
  assert (H2 : tokens ["B"; "B"]) by (repeat constructor).
  split; [exact H1|]. split; [exact H2|].
  exact (proj1 (worklog_line_round_trip _ _ H1 H2)).
Defined.

(** ** One polymer at a time *)

Lemma uppercase_at_ok (i : nat) :
  (i < 26)%nat -> exists letter, uppercase_at i = Ok letter.
Proof.
  intros H. unfold uppercase_at, ascii_uppercase.
  do 26 (destruct i as [|i]; [eexists; reflexivity|]). lia.
Qed.

Lemma uppercase_at_beyond (i : nat) :
  (26 <= i)%nat ->
  uppercase_at i = Raise (IndexError "string index out of range").
Proof.
  intros H. replace i with (26 + (i - 26))%nat by lia.
  unfold uppercase_at, ascii_uppercase. reflexivity.
Qed.

Lemma label_monomers_ok (smiles : list string) :
  forall i d p,
    (i + List.length smiles <= 26)%nat ->
    exists d' p', label_monomers i smiles d p = Ok (d', p').
Proof.
  induction smiles as [|sm smiles IH]; intros i d p H; simpl in *.
  - now exists d, p.
  - destruct (uppercase_at_ok i) as (letter & Hl); [lia|].
    rewrite Hl. apply IH. lia.
Qed.

Lemma label_monomers_beyond (smiles : list string) :
  forall i d p,
    (i <= 26)%nat -> (26 < i + List.length smiles)%nat ->
    label_monomers i smiles d p
    = Raise (IndexError "string index out of range").
Proof.
  induction smiles as [|sm smiles IH]; intros i d p Hi H; simpl in *.
  - lia.
  - destruct (Nat.eq_dec i 26) as [->|Hne].
    + reflexivity.
    + destruct (uppercase_at_ok i) as (letter & Hl); [lia|].
      rewrite Hl. apply IH; lia.
Qed.

(** X14: [calc_polymer_properties] labels the monomers with the letters of
    [string.ascii_uppercase]: with more than 26 descriptors it raises
    [IndexError] before the session directory is entered or any stage is
    called; the world is as it was. *)
Theorem calc_polymer_properties_alphabet_limit (E : env)
    (format_properties :
       string -> string -> string -> string -> string -> option string -> string)
    (str_exn : exn -> string) (s : Session) (smiles : list string)
    (name : string) (w : world) :
  (26 < List.length smiles)%nat ->
  calc_polymer_properties E format_properties str_exn s smiles name w
  = (Raise (IndexError "string index out of range"), w).
Proof.
  intros H. unfold calc_polymer_properties. unfold bind at 1. unfold lift at 1.
  rewrite (label_monomers_beyond smiles 0 [] []) by lia. reflexivity.
Qed.

Lemma calc_polymer_properties_alphabet_limit_witness :
  (26 < List.length (repeat "C" 27))%nat
  /\ calc_polymer_properties demo_env (fun n _ _ _ _ _ => n) (fun _ => "error")
       demo_session (repeat "C" 27) "chain" empty_world
     = (Raise (IndexError "string index out of range"), empty_world).
Proof.
  assert (H : (26 < List.length (repeat "C" 27))%nat) by (simpl; lia).
  split; [exact H|].
  exact (calc_polymer_properties_alphabet_limit demo_env (fun n _ _ _ _ _ => n)
           (fun _ => "error") demo_session (repeat "C" 27) "chain" empty_world H).
Defined.

(** X15: with at most 26 descriptors [calc_polymer_properties] returns
    normally whatever the stages do: it enters the session directory,
    prints either the properties or the error, removes the junk as its last
    act there, and leaves; it neither reads nor writes the work-log, so a
    second call runs the pipeline again. *)
Theorem calc_polymer_properties_returns (E : env)
    (format_properties :
       string -> string -> string -> string -> string -> option string -> string)
    (str_exn : exn -> string) (s : Session) (smiles : list string)
    (name : string) (w : world) :
  (List.length smiles <= 26)%nat ->
  exists body w',
    calc_polymer_properties E format_properties str_exn s smiles name w
    = (Ok tt, w')
    /\ temp w' = temp w
    /\ events w'
       = events w ++ [EvEnter (session_name s)] ++ body
         ++ [EvRemoveJunk (session_name s); EvLeave (session_name s)]
    /\ junk_removals body = []
    /\ hd_error (stages_run body) = Some GeneratePolymer
    /\ (exists text, In (EvWriteFile "<stdout>" text) body).
Proof.
  intros H. unfold calc_polymer_properties. unfold bind at 1. unfold lift at 1.
  destruct (label_monomers_ok smiles 0 [] []) as (d & p & ->); [simpl; lia|].
  destruct w as [t evs].
  unfold with_cd, try_except, call_stage, remove_junk, bind, emit, lift. simpl.
  destruct (generate_polymer E s p d name) as [[pol rep]|e1].
  2:{ eexists [_; _]. eexists. simpl. rewrite <- !app_assoc. simpl.
      repeat split. eexists. right. now left. }
  simpl. destruct (conformer_search E s pol) as [[c1 c2]|e2].
  2:{ eexists [_; _; _]. eexists. simpl. rewrite <- !app_assoc. simpl.
      repeat split. eexists. right. right. now left. }
  simpl. destruct (xtb_opt E s pol) as [[o1 o2]|e3].
  2:{ eexists [_; _; _; _]. eexists. simpl. rewrite <- !app_assoc. simpl.
      repeat split. eexists. do 3 right. now left. }
  simpl. destruct (xtb_calc_potentials E s pol) as [[q1 q2]|e4].
  2:{ eexists [_; _; _; _; _]. eexists. simpl. rewrite <- !app_assoc. simpl.
      repeat split. eexists. do 4 right. now left. }
  simpl. destruct (stda_calc_excitation E s pol) as [[g1 g2]|e5].
  2:{ eexists [_; _; _; _; _; _]. eexists. simpl. rewrite <- !app_assoc. simpl.
      repeat split. eexists. do 5 right. now left. }
  simpl. eexists [_; _; _; _; _; _]. eexists. simpl. rewrite <- !app_assoc.
  simpl. repeat split. eexists. do 5 right. now left.
Qed.

Lemma calc_polymer_properties_returns_witness :
  (List.length ["CCC"; "CCO"] <= 26)%nat
  /\ exists body w',
       calc_polymer_properties demo_env (fun n _ _ _ _ _ => n) (fun _ => "error")
         demo_session ["CCC"; "CCO"] "chain" used_world
       = (Ok tt, w')
       /\ temp w' = temp used_world
       /\ events w'
          = events used_world ++ [EvEnter (session_name demo_session)] ++ body
            ++ [EvRemoveJunk (session_name demo_session);
                EvLeave (session_name demo_session)]
       /\ junk_removals body = []
       /\ hd_error (stages_run body) = Some GeneratePolymer
       /\ (exists text, In (EvWriteFile "<stdout>" text) body).
Proof.
  assert (H : (List.length ["CCC"; "CCO"] <= 26)%nat) by (simpl; lia).
  split; [exact H|].
  exact (calc_polymer_properties_returns demo_env (fun n _ _ _ _ _ => n)
           (fun _ => "error") demo_session ["CCC"; "CCO"] "chain" used_world H).
Defined.

Lemma uppercase_at_code (i : nat) :
  (i < 26)%nat -> uppercase_at i = Ok (String (ascii_of_nat (65 + i)) "").
Proof.
  intros H. do 26 (destruct i as [|i]; [reflexivity|]). lia.
Qed.

(** Different positions carry different letters. *)
Lemma uppercase_at_inj (i j : nat) (letter : string) :
  uppercase_at i = Ok letter -> uppercase_at j = Ok letter -> i = j.
Proof.
  intros Hi Hj.
  assert (Hi26 : (i < 26)%nat).
  { destruct (Nat.lt_ge_cases i 26) as [H|H]; [assumption|].
    rewrite (uppercase_at_beyond i H) in Hi. discriminate. }
  assert (Hj26 : (j < 26)%nat).
  { destruct (Nat.lt_ge_cases j 26) as [H|H]; [assumption|].
    rewrite (uppercase_at_beyond j H) in Hj. discriminate. }
  rewrite (uppercase_at_code i Hi26) in Hi.
  rewrite (uppercase_at_code j Hj26) in Hj.
  rewrite <- Hj in Hi. injection Hi as Hc.
  apply (f_equal nat_of_ascii) in Hc.
  rewrite !nat_ascii_embedding in Hc by lia. lia.
Qed.

Lemma label_monomers_spec (smiles : list string) :
  forall i d0 p0 d p,
    label_monomers i smiles d0 p0 = Ok (d, p) ->
    (exists letters,
       p = p0 ++ letters
       /\ List.length letters = List.length smiles
       /\ forall j sm, nth_error smiles j = Some sm ->
            exists letter,
              uppercase_at (i + j) = Ok letter
              /\ nth_error letters j = Some letter
              /\ dict_get letter d = Some sm)
    /\ (forall k, (forall j, (i <= j)%nat -> uppercase_at j <> Ok k) ->
          dict_get k d = dict_get k d0).
Proof.
  induction smiles as [|sm smiles IH]; intros i d0 p0 d p H; simpl in H.
  - injection H as <- <-. split.
    + exists []. rewrite app_nil_r. split; [reflexivity|]. split; [reflexivity|].
      intros j sm' Hj. destruct j; discriminate.
    + reflexivity.
  - destruct (uppercase_at i) as [a|e] eqn:Ha; [|discriminate].
    destruct (IH _ _ _ _ _ H) as [(letters & Hp & Hlen & Hget) Hframe].
    assert (Ha' : dict_get a d = Some sm).
    { rewrite Hframe.
      - rewrite dict_get_set. now rewrite String.eqb_refl.
      - intros j Hj Hja. pose proof (uppercase_at_inj _ _ _ Ha Hja). lia. }
    split.
    + exists (a :: letters). split; [now rewrite Hp, <- app_assoc|].
      split; [simpl; now rewrite Hlen|].
      intros [|j] sm' Hj; simpl in Hj.
      * injection Hj as <-. exists a. rewrite Nat.add_0_r. repeat split; assumption.
      * destruct (Hget j sm' Hj) as (letter & H1 & H2 & H3).
        exists letter. rewrite Nat.add_succ_r. repeat split; assumption.
    + intros k Hk. rewrite Hframe.
      * rewrite dict_get_set. destruct (String.eqb k a) eqn:Hka; [|reflexivity].
        apply String.eqb_eq in Hka. subst k. now elim (Hk i (Nat.le_refl i)).
      * intros j Hj. apply Hk. lia.
Qed.

(** X16: the labelling of [calc_polymer_properties] gives the i-th
    descriptor the i-th capital letter: the permutation lists these letters
    in order, and looking a letter up in the dict gives back its
    descriptor. *)
Theorem calc_labels_round_trip (smiles : list string) (d : pydict)
    (permutation : composition) :
  label_monomers 0 smiles [] [] = Ok (d, permutation) ->
  List.length permutation = List.length smiles
  /\ NoDup permutation
  /\ forall i sm, nth_error smiles i = Some sm ->
       exists letter,
         uppercase_at i = Ok letter
         /\ nth_error permutation i = Some letter
         /\ dict_get letter d = Some sm.
Proof.
  intros H.
  destruct (label_monomers_spec smiles 0 [] [] d permutation H)
    as [(letters & -> & Hlen & Hget) _].
  simpl. split; [exact Hlen|]. split; [|exact Hget].
  apply (proj2 (NoDup_nth_error letters)). intros i j Hi Heq.
  rewrite Hlen in Hi.
  destruct (nth_error smiles i) as [sm|] eqn:Hsm;
    [|apply nth_error_None in Hsm; lia].
  destruct (Hget i sm Hsm) as (a & Ha & Hna & _).
  assert (Hj : (j < List.length smiles)%nat).
  { rewrite <- Hlen. apply nth_error_Some. rewrite <- Heq, Hna. discriminate. }
  destruct (nth_error smiles j) as [sm'|] eqn:Hsm';
    [|apply nth_error_None in Hsm'; lia].
  destruct (Hget j sm' Hsm') as (b & Hb & Hnb & _).
  rewrite Hna, Hnb in Heq. injection Heq as <-.
  exact (uppercase_at_inj _ _ _ Ha Hb).
Qed.

Lemma calc_labels_round_trip_witness :
  label_monomers 0 ["CCC"; "CCO"; "CCN"] [] []
  = Ok ([("A", "CCC"); ("B", "CCO"); ("C", "CCN")], ["A"; "B"; "C"])
  /\ List.length ["A"; "B"; "C"] = List.length ["CCC"; "CCO"; "CCN"]
  /\ NoDup ["A"; "B"; "C"].
Proof.
  assert (H : label_monomers 0 ["CCC"; "CCO"; "CCN"] [] []
              = Ok ([("A", "CCC"); ("B", "CCO"); ("C", "CCN")], ["A"; "B"; "C"]))
    by reflexivity.
  split; [exact H|].
  destruct (calc_labels_round_trip _ _ _ H) as (H1 & H2 & _).
  split; [exact H1 | exact H2].
Defined.

(** ** Reading a value out of a transcript *)

Lemma substring_prefix (m : string) :
  forall s, substring 0 (String.length m) s = m ->
    exists after, s = (m ++ after)%string.
Proof.
  induction m as [|c m IH]; intros s H.
  - now exists s.
  - destruct s as [|c' s]; simpl in H; [discriminate|].
    injection H as -> H. destruct (IH s H) as (after & ->). now exists after.
Qed.

Lemma substring_occurs (i : nat) :
  forall m s, substring i (String.length m) s = m -> occurs m s.
Proof.
  induction i as [|i IH]; intros m s H.
  - destruct (substring_prefix m s H) as (after & ->). now exists "", after.
  - destruct s as [|c s].
    + destruct m; simpl in H; [|discriminate]. now exists "", "".
    + simpl in H. destruct (IH m s H) as (before & after & ->).
      now exists (String c before), after.
Qed.

Lemma find_absent (marker output : string) :
  ~ occurs marker output -> py_find marker output = (-1)%Z.
Proof.
  intros H. unfold py_find.
  destruct (String.index 0 marker output) as [i|] eqn:Hi; [|reflexivity].
  elim H. apply (substring_occurs i). exact (index_correct1 _ _ _ _ Hi).
Qed.

Lemma length_str_drop (n : nat) :
  forall s, String.length (str_drop n s) = (String.length s - n)%nat.
Proof.
  induction n as [|n IH]; intros s; simpl; [lia|].
  destruct s as [|c s]; simpl; [reflexivity | apply IH].
Qed.

Lemma split_short (s : string) :
  (String.length s <= 1)%nat -> (List.length (PyStr.split s) <= 1)%nat.
Proof.
  destruct s as [|c [|c' s]]; simpl; intros H; try lia.
  unfold PyStr.split. simpl. destruct (PyStr.is_space c); simpl; lia.
Qed.

(** Without the marker the slice starts at the last character, and no token
    but the first can be there. *)
Lemma token_after_absent (marker : string) (n : nat) (output : string) :
  ~ occurs marker output -> (1 <= n)%nat ->
  token_after marker n output = Raise (IndexError "list index out of range").
Proof.
  intros Habs Hn. unfold token_after, token_at.
  rewrite (find_absent _ _ Habs).
  assert (Hlen : (List.length (PyStr.split (slice_from (-1) output)) <= 1)%nat).
  { apply split_short. unfold slice_from. rewrite length_str_drop.
    unfold clamp. simpl. lia. }
  destruct (nth_error _ n) eqn:Hnth; [|reflexivity].
  assert (Hsome : nth_error (PyStr.split (slice_from (-1) output)) n <> None)
    by congruence.
  apply nth_error_Some in Hsome. lia.
Qed.

(** X17: a transcript that lacks the marker phrase makes the stage raise
    [IndexError]: ['delta SCC IP'] and ['delta SCC EA'] in
    [xtb_calc_potentials], ['excitation energies'] in
    [stda_calc_excitation]. *)
Theorem missing_marker_raises_IndexError
    (run_calc : list string -> result string) (s : Session) (p : polymer) :
  (forall output,
     run_calc (["xtb"; (polymer_name p ++ "-opt.xyz")%string; "-vip"]
               ++ solvent_info s) = Ok output ->
     ~ occurs "delta SCC IP" output ->
     Session_xtb_calc_potentials run_calc s p
     = Raise (IndexError "list index out of range"))
  /\ (forall output vip output',
        run_calc (["xtb"; (polymer_name p ++ "-opt.xyz")%string; "-vip"]
                  ++ solvent_info s) = Ok output ->
        token_after "delta SCC IP" 4 output = Ok vip ->
        run_calc (["xtb"; (polymer_name p ++ "-opt.xyz")%string; "-vea"]
                  ++ solvent_info s) = Ok output' ->
        ~ occurs "delta SCC EA" output' ->
        Session_xtb_calc_potentials run_calc s p
        = Raise (IndexError "list index out of range"))
  /\ (forall transcript output,
        run_calc (["xtb"; (polymer_name p ++ "-opt.xyz")%string]
                  ++ solvent_info s) = Ok transcript ->
        run_calc ["stda"; "-xtb"; "-e"; "8"] = Ok output ->
        ~ occurs "excitation energies" output ->
        Session_stda_calc_excitation run_calc s p
        = Raise (IndexError "list index out of range")).
Proof.
  split; [|split].
  - intros output Hrun Habs. unfold Session_xtb_calc_potentials.
    rewrite Hrun, (token_after_absent _ 4 _ Habs) by lia. reflexivity.
  - intros output vip output' Hrun Hvip Hrun' Habs.
    unfold Session_xtb_calc_potentials.
    rewrite Hrun, Hvip, Hrun', (token_after_absent _ 4 _ Habs) by lia.
    reflexivity.
  - intros transcript output Hrun Hrun' Habs.
    unfold Session_stda_calc_excitation.
    rewrite Hrun, Hrun', (token_after_absent _ 13 _ Habs) by lia. reflexivity.
Qed.

Lemma missing_marker_raises_IndexError_witness :
  let run_calc := fun _ : list string => Ok "normal termination of xtb" in
  run_calc (["xtb"; (polymer_name (mkPolymer "A-B" "mol") ++ "-opt.xyz")%string;
             "-vip"] ++ solvent_info demo_session)
  = Ok "normal termination of xtb"
  /\ ~ occurs "delta SCC IP" "normal termination of xtb"
  /\ Session_xtb_calc_potentials run_calc demo_session (mkPolymer "A-B" "mol")
     = Raise (IndexError "list index out of range").
Proof.
  cbv zeta.
  assert (H1 : (fun _ : list string => Ok "normal termination of xtb")
                 (["xtb"; (polymer_name (mkPolymer "A-B" "mol") ++ "-opt.xyz")%string;
                   "-vip"] ++ solvent_info demo_session)
               = Ok "normal termination of xtb") by reflexivity.
  assert (H2 : ~ occurs "delta SCC IP" "normal termination of xtb").
  { intros (before & after & H).
    assert (Hidx : String.index 0 "delta SCC IP" "normal termination of xtb" = None)
      by reflexivity.
    apply (index_correct3 0 (String.length before) _ _ Hidx);
      [discriminate | lia |].
    rewrite H. clear. revert after.
    induction before as [|c before IH]; intros after; simpl.
    - f_equal. f_equal. f_equal. f_equal. f_equal. f_equal. f_equal. f_equal.
      f_equal. f_equal. f_equal. f_equal. now destruct after.
    - apply IH. }
  split; [exact H1|]. split; [exact H2|].
  exact (proj1 (missing_marker_raises_IndexError
                  (fun _ => Ok "normal termination of xtb") demo_session
                  (mkPolymer "A-B" "mol"))
           "normal termination of xtb" H1 H2).
Defined.

Lemma str_drop_app (a : string) :
  forall b, str_drop (String.length a) (a ++ b) = b.
Proof. induction a as [|c a IH]; intros b; simpl; [reflexivity | apply IH]. Qed.

Lemma length_append (a b : string) :
  String.length (a ++ b) = (String.length a + String.length b)%nat.
Proof. induction a as [|c a IH]; simpl; [reflexivity | now rewrite IH]. Qed.

Lemma substring_at_app (a m : string) :
  forall b, substring (String.length a) (String.length m) (a ++ m ++ b) = m.
Proof.
  induction a as [|c a IH]; intros b; simpl.
  - induction m as [|x m IHm]; simpl; [now destruct b | now rewrite IHm].
  - apply IH.
Qed.

(** X18: the value is read from the first occurrence of the marker on: what
    stands before it has no influence on the token that is returned. *)
Theorem token_after_first_occurrence (marker : string) (n : nat)
    (before rest : string) :
  marker <> "" ->
  (forall p, (p < String.length before)%nat ->
     substring p (String.length marker) (before ++ marker ++ rest) <> marker) ->
  token_after marker n (before ++ marker ++ rest)
  = token_at n (PyStr.split (marker ++ rest)).
Proof.
  intros Hne Hfirst. unfold token_after, py_find.
  destruct (String.index 0 marker (before ++ marker ++ rest)) as [i|] eqn:Hi.
  - assert (Hi_eq : i = String.length before).
    { destruct (Nat.lt_trichotomy i (String.length before)) as [Hlt|[Heq|Hgt]].
      - elim (Hfirst i Hlt). exact (index_correct1 _ _ _ _ Hi).
      - exact Heq.
      - elim (index_correct2 _ _ _ _ Hi (String.length before) (Nat.le_0_l _) Hgt).
        apply substring_at_app. }
    subst i. unfold slice_from, clamp.
    destruct (Z.of_nat (String.length before) <? 0)%Z eqn:Hneg;
      [apply Z.ltb_lt in Hneg; lia|].
    rewrite Nat2Z.id, Nat.min_l by (rewrite length_append; lia).
    now rewrite str_drop_app.
  - elim (index_correct3 0 (String.length before) marker _ Hi Hne (Nat.le_0_l _)).
    apply substring_at_app.
Qed.

Lemma token_after_first_occurrence_witness :
  "delta SCC IP" <> ""
  /\ token_after "delta SCC IP" 4
       (("some header" ++ String PyStr.LF "")
        ++ "delta SCC IP" ++ (" (eV):    6.5321" ++ String PyStr.LF "more"))
     = Ok "6.5321".
Proof.
  assert (H1 : "delta SCC IP" <> "") by discriminate.
  split; [exact H1|].
  refine (eq_trans
            (token_after_first_occurrence "delta SCC IP" 4
               ("some header" ++ String PyStr.LF "")
               (" (eV):    6.5321" ++ String PyStr.LF "more") H1 _) _).
  - intros p Hp. simpl in Hp.
    do 12 (destruct p as [|p]; [discriminate|]). lia.
  - reflexivity.
Defined.

Lemma clamp_negative (len : nat) (i : Z) :
  (i < 0)%Z -> clamp len i = Z.to_nat (Z.max 0 (Z.of_nat len + i)).
Proof. intros H. unfold clamp. apply Z.ltb_lt in H. now rewrite H. Qed.

Lemma str_take_app (a : string) :
  forall b, str_take (String.length a) (a ++ b) = a.
Proof.
  induction a as [|c a IH]; intros b; simpl; [reflexivity | now rewrite IH].
Qed.

(** X19: [xtb_opt] reads the total energy from [output[-900:-100]] only.
    A transcript of at most 100 characters leaves that window empty and the
    stage raises [IndexError]; in a longer transcript the 800 characters
    before the last 100 decide, whatever stands before or after them. *)
Theorem xtb_opt_reads_fixed_window (s : Session) :
  (forall output,
     (String.length output <= 100)%nat ->
     xtb_opt_E_xtb s output = Raise (IndexError "list index out of range"))
  /\ (forall head window tail,
        String.length window = 800%nat -> String.length tail = 100%nat ->
        xtb_opt_E_xtb s (head ++ window ++ tail)
        = token_at (match solvent_info s with [] => 29 | _ :: _ => 27 end)
            (PyStr.split window)).
Proof.
  split.
  - intros output Hlen. unfold xtb_opt_E_xtb, slice.
    rewrite !clamp_negative by lia.
    replace (Z.to_nat (Z.max 0 (Z.of_nat (String.length output) + -100)))
      with 0%nat by lia.
    simpl. unfold token_at. now destruct (solvent_info s).
  - intros head window tail Hw Ht. unfold xtb_opt_E_xtb, slice.
    rewrite !clamp_negative by lia. rewrite !length_append, Hw, Ht.
    replace (Z.to_nat (Z.max 0 (Z.of_nat (String.length head + (800 + 100)) + -900)))
      with (String.length head) by lia.
    replace (Z.to_nat (Z.max 0 (Z.of_nat (String.length head + (800 + 100)) + -100))
             - String.length head)%nat
      with (String.length window) by lia.
    now rewrite str_drop_app, str_take_app.
Qed.

Lemma xtb_opt_reads_fixed_window_witness :
  (String.length "SCC did not converge" <= 100)%nat
  /\ xtb_opt_E_xtb demo_session "SCC did not converge"
     = Raise (IndexError "list index out of range").
Proof.
  assert (H : (String.length "SCC did not converge" <= 100)%nat) by (simpl; lia).
  split; [exact H|].
  exact (proj1 (xtb_opt_reads_fixed_window demo_session) _ H).
Defined.

(** ** The lowest conformer *)

Section Conformers.
Context {En : Type}.
Variable ltb : En -> En -> bool.

Lemma lowest_from_none (confs : list (Z * En)) :
  forall e0 c0,
    Forall (fun x => ltb (snd x) e0 = false) confs ->
    lowest_from ltb confs e0 c0 = (e0, c0).
Proof.
  induction confs as [|[cf en] confs IH]; intros e0 c0 H; [reflexivity|].
  inversion H as [|? ? Hx Hrest]; subst. simpl in *. rewrite Hx. now apply IH.
Qed.

Lemma lowest_from_some (confs : list (Z * En)) :
  forall e0 c0,
    Exists (fun x => ltb (snd x) e0 = true) confs ->
    exists e c, lowest_from ltb confs e0 c0 = (e, Some c).
Proof.
  induction confs as [|[cf en] confs IH]; intros e0 c0 H; [inversion H|].
  simpl. destruct (ltb en e0) eqn:Hlt.
  - destruct (Exists_dec (fun x => ltb (snd x) en = true) confs) as [Hex|Hno].
    + intros x. destruct (ltb (snd x) en); [now left | right; discriminate].
    + now apply IH.
    + exists en, cf. apply lowest_from_none.
      apply Forall_Exists_neg in Hno. eapply Forall_impl; [|exact Hno].
      intros x Hx. simpl in Hx. now destruct (ltb (snd x) en).
  - apply IH. inversion H as [? ? Hx|]; subst; [|assumption].
    simpl in Hx. congruence.
Qed.

(** X20: [conformer_search] fails with an unbound [lowest_conf] exactly
    when no conformer has an energy below [10**10], in particular when no
    conformer was embedded. *)
Theorem conformer_search_unbound (bound : En) (confs : list (Z * En)) :
  conformer_lowest ltb bound confs = Raise (StageFailure "UnboundLocalError")
  <-> Forall (fun x => ltb (snd x) bound = false) confs.
Proof.
  unfold conformer_lowest. split.
  - intros H.
    destruct (Exists_dec (fun x => ltb (snd x) bound = true) confs) as [Hex|Hno].
    + intros x. destruct (ltb (snd x) bound); [now left | right; discriminate].
    + destruct (lowest_from_some confs bound None Hex) as (e & c & Heq).
      rewrite Heq in H. discriminate.
    + apply Forall_Exists_neg in Hno. eapply Forall_impl; [|exact Hno].
      intros x Hx. simpl in Hx. now destruct (ltb (snd x) bound).
  - intros H. now rewrite (lowest_from_none confs bound None H).
Qed.

Hypothesis energy_lt_trans :
  forall a b c, ltb a b = true -> ltb b c = true -> ltb a c = true.
Hypothesis energy_lt_connected :
  forall a b, ltb a b = false -> ltb b a = false -> a = b.

Lemma lowest_from_spec (confs : list (Z * En)) :
  forall e0 c0 e c,
    lowest_from ltb confs e0 c0 = (e, c) ->
    (e = e0 /\ c = c0 /\ Forall (fun x => ltb (snd x) e0 = false) confs)
    \/ (exists pre cf post,
          confs = pre ++ (cf, e) :: post /\ c = Some cf
          /\ ltb e e0 = true
          /\ Forall (fun x => ltb e (snd x) = true) pre
          /\ Forall (fun x => ltb (snd x) e = false) post).
Proof.
  induction confs as [|[cf en] confs IH]; intros e0 c0 e c H; simpl in H.
  - injection H as <- <-. left. repeat split. constructor.
  - destruct (ltb en e0) eqn:Hlt.
    + right. destruct (IH _ _ _ _ H) as [(-> & -> & Hall)|
        (pre & cf' & post & -> & -> & Hlt' & Hpre & Hpost)].
      * exists [], cf, confs. repeat split; auto.
      * exists ((cf, en) :: pre), cf', post. repeat split; auto.
        now apply (energy_lt_trans _ en).
    + destruct (IH _ _ _ _ H) as [(-> & -> & Hall)|
        (pre & cf' & post & -> & -> & Hlt' & Hpre & Hpost)].
      * left. repeat split. now constructor.
      * right. exists ((cf, en) :: pre), cf', post. repeat split; auto.
        constructor; [|assumption]. simpl.
        destruct (ltb e en) eqn:Hcmp; [reflexivity|].
        destruct (ltb en e) eqn:Hcmp'.
        -- rewrite (energy_lt_trans _ _ _ Hcmp' Hlt') in Hlt. discriminate.
        -- rewrite <- (energy_lt_connected _ _ Hcmp Hcmp') in Hlt. congruence.
Qed.

(** X21: when [<] orders the energies, [conformer_search] returns the
    first of the conformers of lowest energy: every conformer before it has
    a higher energy, no conformer after it has a lower one, and its energy
    is below [10**10]. *)
Theorem conformer_search_first_lowest (bound : En) (confs : list (Z * En))
    (conf : Z) (energy : En) :
  conformer_lowest ltb bound confs = Ok (conf, energy) ->
  exists pre post,
    confs = pre ++ (conf, energy) :: post
    /\ ltb energy bound = true
    /\ Forall (fun x => ltb energy (snd x) = true) pre
    /\ Forall (fun x => ltb (snd x) energy = false) post.
Proof.
  unfold conformer_lowest. intros H.
  destruct (lowest_from ltb confs bound None) as [e [c|]] eqn:Hl; [|discriminate].
  injection H as -> ->.
  destruct (lowest_from_spec _ _ _ _ _ Hl) as [(_ & Hc & _)|
    (pre & cf & post & Hconfs & Hc & Hlt & Hpre & Hpost)]; [discriminate|].
  injection Hc as <-. now exists pre, post.
Qed.

End Conformers.

Lemma conformer_search_unbound_witness :
  conformer_lowest Z.ltb (10 ^ 10)%Z [] = Raise (StageFailure "UnboundLocalError")
  /\ conformer_lowest Z.ltb (10 ^ 10)%Z [(0%Z, (10 ^ 10)%Z); (1%Z, (10 ^ 11)%Z)]
     = Raise (StageFailure "UnboundLocalError").
Proof.
  split.
  - apply (proj2 (conformer_search_unbound Z.ltb (10 ^ 10)%Z [])). constructor.
  - apply (proj2 (conformer_search_unbound Z.ltb (10 ^ 10)%Z _)).
    repeat constructor.
Defined.

Lemma conformer_search_first_lowest_witness :
  conformer_lowest Z.ltb (10 ^ 10)%Z [(0, 7); (1, 3); (2, 5); (3, 3)]%Z
  = Ok (1%Z, 3%Z)
  /\ exists pre post,
       [(0, 7); (1, 3); (2, 5); (3, 3)]%Z = pre ++ (1, 3)%Z :: post
       /\ (3 <? 10 ^ 10)%Z = true
       /\ Forall (fun x => (3 <? snd x)%Z = true) pre
       /\ Forall (fun x => (snd x <? 3)%Z = false) post.
Proof.
  assert (H : conformer_lowest Z.ltb (10 ^ 10)%Z [(0, 7); (1, 3); (2, 5); (3, 3)]%Z
              = Ok (1%Z, 3%Z)) by reflexivity.
  split; [exact H|].
  apply (conformer_search_first_lowest Z.ltb) with (bound := (10 ^ 10)%Z).
  - intros a b c Hab Hbc. apply Z.ltb_lt in Hab, Hbc. apply Z.ltb_lt. lia.
  - intros a b Hab Hba. apply Z.ltb_ge in Hab, Hba. lia.
  - exact H.
Defined.
